(** * runq image shrinking: a shallow embedding of [images.py] and
      [shrink_containers.py], and the properties of its specification.

    Conventions of the embedding.
    - Python [bytes] and [str] values are Rocq [string]s, i.e. sequences of
      8-bit characters.  A [str] is represented by its UTF-8 encoding, so
      [str.encode("utf-8")] is the identity and [bytes.decode("utf-8")] is a
      validity check that raises [UnicodeDecodeError] on ill-formed input.
    - A Python [dict] is an association list in insertion order whose keys
      are pairwise distinct; a Python [set] of bytes is a [gset string].
    - Code that can raise returns a [result]: [Ok v] or [Raise e].
    - What the code prints is not modelled, except where building the
      message can raise.  Calls of [docker] and the analysis of an image are
      parameters of the loops that make them. *)

From stdpp Require Import gmap strings list sorting.
From Stdlib Require Import ZArith Ascii Permutation.

Set Warnings "-register-all".


(** ** Python dictionaries *)

Module pydict.
Section Dict.
Context {V : Type}.

(** [d.get(k)] *)
Fixpoint get (k : string) (d : list (string * V)) : option V :=
  match d with
  | [] => None
  | (k', v) :: d' => if String.eqb k k' then Some v else get k d'
  end.

(** [d[k] = v]: an existing key keeps its position. *)
Fixpoint set (k : string) (v : V) (d : list (string * V)) : list (string * V) :=
  match d with
  | [] => [(k, v)]
  | (k', v') :: d' =>
      if String.eqb k k' then (k, v) :: d' else (k', v') :: set k v d'
  end.

(** [dict(pairs)] *)
Definition of_pairs (pairs : list (string * V)) : list (string * V) :=
  fold_left (fun d kv => set (fst kv) (snd kv) d) pairs [].

Definition keys (d : list (string * V)) : list string := map fst d.
End Dict.
End pydict.

(** ** Results of code that can raise *)

(** The error numbers the modelled system calls fail with. *)
Inductive errno := ENOENT | ENOTDIR | ELOOP | EEXIST | EISDIR | EINVAL.

(** The exceptions of the modelled code.  [OSError ENOENT] is Python's
    [FileNotFoundError], [OSError EEXIST] its [FileExistsError], and so on. *)
Inductive exn :=
| OSError (e : errno)
| ValueError
| IndexError
| UnicodeDecodeError
| RuntimeError
| RecursionError.

Inductive result (A : Type) : Type :=
| Ok (a : A)
| Raise (e : exn).
Arguments Ok {A} a.
Arguments Raise {A} e.

#[global] Instance result_ret : MRet result := fun A a => Ok a.
#[global] Instance result_bind : MBind result := fun A B f m =>
  match m with
  | Ok a => f a
  | Raise e => Raise e
  end.

(** A [for] loop whose body may raise: the first exception ends the loop. *)
Fixpoint for_each {A S : Type} (body : S → A → result S) (l : list A) (s : S)
    : result S :=
  match l with
  | [] => Ok s
  | a :: l' => s' ← body s a; for_each body l' s'
  end.

(** ** Python byte strings *)

Module pybytes.

(** [s.startswith(p)] *)
Definition startswith (s p : string) : bool := String.prefix p s.

(** [s.split(sep)] for a separator of one character. *)
Fixpoint split (sep : ascii) (s : string) : list string :=
  match s with
  | EmptyString => [EmptyString]
  | String c s' =>
      if Ascii.eqb c sep then EmptyString :: split sep s'
      else match split sep s' with
           | w :: ws => String c w :: ws
           | [] => [String c EmptyString]
           end
  end.

(** [sep.join(l)] *)
Fixpoint join (sep : string) (l : list string) : string :=
  match l with
  | [] => EmptyString
  | [w] => w
  | w :: l' => w +:+ sep +:+ join sep l'
  end.

(** [f.readline()] on a stream holding [s]: up to and with the first
    newline. *)
Fixpoint readline (s : string) : string :=
  match s with
  | EmptyString => EmptyString
  | String c s' =>
      if Ascii.eqb c "010" then String c EmptyString
      else String c (readline s')
  end.

(** The ASCII whitespace [bytes.split()] splits on: space, tab, newline,
    carriage return, vertical tab and form feed. *)
Definition isspace (c : ascii) : bool :=
  match N_of_ascii c with
  | 32%N | 9%N | 10%N | 13%N | 11%N | 12%N => true
  | _ => false
  end.

(** [s.split()]: the maximal runs of characters that are not whitespace. *)
Fixpoint split_whitespace (s : string) : list string :=
  match s with
  | EmptyString => []
  | String c s' =>
      if isspace c then split_whitespace s'
      else match s' with
           | EmptyString => [String c EmptyString]
           | String c' _ =>
               if isspace c' then String c EmptyString :: split_whitespace s'
               else match split_whitespace s' with
                    | w :: ws => String c w :: ws
                    | [] => [String c EmptyString]
                    end
           end
  end.

(** [s[n:]] *)
Fixpoint drop (n : nat) (s : string) : string :=
  match n, s with
  | O, _ => s
  | S n', String _ s' => drop n' s'
  | S _, EmptyString => EmptyString
  end.

(** [s.lstrip(c)] for one character. *)
Fixpoint lstrip (c : ascii) (s : string) : string :=
  match s with
  | String c' s' => if Ascii.eqb c' c then lstrip c s' else s
  | EmptyString => EmptyString
  end.

(** [s.replace(old, new)] for a non-empty [old]: the occurrences are found
    from the left and do not overlap.  [skip] counts the characters of a
    replaced occurrence that are still to be passed over. *)
Fixpoint replace_from (skip : nat) (old new s : string) : string :=
  match s with
  | EmptyString => EmptyString
  | String c s' =>
      match skip with
      | S k => replace_from k old new s'
      | O =>
          if String.prefix old s
          then new +:+ replace_from (String.length old - 1) old new s'
          else String c (replace_from 0 old new s')
      end
  end.

(** With an empty [old], Python puts [new] before every character and at
    the end. *)
Fixpoint intersperse (new s : string) : string :=
  match s with
  | EmptyString => new
  | String c s' => new +:+ String c (intersperse new s')
  end.

Definition replace (s old new : string) : string :=
  match old with
  | EmptyString => intersperse new s
  | _ => replace_from 0 old new s
  end.

(** Well-formed UTF-8 (Unicode table 3-7), on the values of the bytes. *)
Definition between (lo hi b : N) : bool := ((lo <=? b) && (b <=? hi))%N.

Fixpoint utf8_wf (l : list N) : bool :=
  match l with
  | [] => true
  | b0 :: r0 =>
      if (b0 <=? 127)%N then utf8_wf r0
      else match r0 with
      | [] => false
      | b1 :: r1 =>
          if between 194 223 b0 then between 128 191 b1 && utf8_wf r1
          else match r1 with
          | [] => false
          | b2 :: r2 =>
              if between 224 239 b0 then
                (if (b0 =? 224)%N then between 160 191 b1
                 else if (b0 =? 237)%N then between 128 159 b1
                 else between 128 191 b1)
                && between 128 191 b2 && utf8_wf r2
              else match r2 with
              | [] => false
              | b3 :: r3 =>
                  between 240 244 b0
                  && (if (b0 =? 240)%N then between 144 191 b1
                      else if (b0 =? 244)%N then between 128 143 b1
                      else between 128 191 b1)
                  && between 128 191 b2 && between 128 191 b3 && utf8_wf r3
              end
          end
      end
  end.

Fixpoint values (s : string) : list N :=
  match s with
  | EmptyString => []
  | String c s' => N_of_ascii c :: values s'
  end.

(** [b.decode("utf-8")] *)
Definition decode (b : string) : result string :=
  if utf8_wf (values b) then Ok b else Raise UnicodeDecodeError.

End pybytes.

(** ** [images.py] *)

Module images.

Record Port := mkPort { num : Z; wget : bool }.

Record Mount := mkMount { from_path : string; to_path : string }.

Inductive Image : Type := mkImage {
  name : string;
  repo_digest : option string;
  test_ports : list Port;
  docker_commands : list string;
  old_size : option Z;
  new_size : option Z;
  envs : list string;
  mounts : list Mount;
  skip : bool;
  sidecars : list Image
}.

(** The values [json.load] produces and [json.dump] consumes. *)
Inductive json : Type :=
| JNull
| JBool (b : bool)
| JInt (z : Z)
| JStr (s : string)
| JList (l : list json)
| JDict (d : list (string * json)).

Definition json_of_optstr (o : option string) : json :=
  match o with Some s => JStr s | None => JNull end.

(** [Image.as_json] *)
Fixpoint as_json (self : Image) : json :=
  let mounts_j :=
    map (fun p => JDict [("from_path", JStr (from_path p));
                         ("to_path", JStr (to_path p))]) (mounts self) in
  let test_ports_j :=
    map (fun p =>
           let test_port := [("num", JInt (num p))] in
           JDict (if wget p
                  then pydict.set "wget" (JBool (wget p)) test_port
                  else test_port)) (test_ports self) in
  let fields :=
    [("repo_digest", json_of_optstr (repo_digest self));
     ("test_ports", JList test_ports_j);
     ("envs", JList (map JStr (envs self)));
     ("mounts", JList mounts_j);
     ("sidecars",
      JDict (pydict.of_pairs
               (map (fun sidecar => (name sidecar, as_json sidecar))
                    (sidecars self))))] in
  let fields :=
    if skip self then pydict.set "skip" (JBool (skip self)) fields else fields in
  let fields :=
    match old_size self with
    | Some n => pydict.set "old_size" (JInt n) fields
    | None => fields
    end in
  let fields :=
    match new_size self with
    | Some n => pydict.set "new_size" (JInt n) fields
    | None => fields
    end in
  JDict fields.

(** Reading a JSON value at the type a dataclass field declares.  [None]
    stands for a descriptor on which [from_json] raises or builds an object
    whose fields do not have their declared types. *)
Definition as_str (j : json) : option string :=
  match j with JStr s => Some s | _ => None end.

Definition as_optstr (o : option json) : option (option string) :=
  match o with
  | None | Some JNull => Some None
  | Some (JStr s) => Some (Some s)
  | _ => None
  end.

Definition as_optint (o : option json) : option (option Z) :=
  match o with
  | None | Some JNull => Some None
  | Some (JInt z) => Some (Some z)
  | _ => None
  end.

Definition as_bool_or (dflt : bool) (o : option json) : option bool :=
  match o with
  | None => Some dflt
  | Some (JBool b) => Some b
  | _ => None
  end.

Definition as_list_or_empty (o : option json) : option (list json) :=
  match o with
  | None => Some []
  | Some (JList l) => Some l
  | _ => None
  end.

Definition as_strlist (o : option json) : option (list string) :=
  l ← as_list_or_empty o; mapM as_str l.

(** [Mount] called with the dict [p] as keyword arguments: exactly
    [from_path] and [to_path]. *)
Definition mount_of_json (p : json) : option Mount :=
  match p with
  | JDict d =>
      if forallb (fun k => String.eqb k "from_path" || String.eqb k "to_path")
                 (pydict.keys d)
      then f ← pydict.get "from_path" d ≫= as_str;
           t ← pydict.get "to_path" d ≫= as_str;
           Some (mkMount f t)
      else None
  | _ => None
  end.

(** [Port] called with the dict [p] as keyword arguments: [num] is required
    and [wget] defaults to [False]. *)
Definition port_of_json (p : json) : option Port :=
  match p with
  | JDict d =>
      if forallb (fun k => String.eqb k "num" || String.eqb k "wget")
                 (pydict.keys d)
      then n ← pydict.get "num" d
               ≫= (fun j => match j with JInt z => Some z | _ => None end);
           w ← as_bool_or false (pydict.get "wget" d);
           Some (mkPort n w)
      else None
  | _ => None
  end.

(** [Image.from_json].  The loop over [value.get("sidecars", {}).items()] is
    the inner [sidecars_of]; the lookup of the key is written out as the
    search [find_sidecars] so that the recursion is structural. *)
Fixpoint from_json (name : string) (value : json) {struct value} : option Image :=
  match value with
  | JDict d =>
      let sidecars_of :=
        fix sidecars_of (items : list (string * json)) : option (list Image) :=
          match items with
          | [] => Some []
          | (n, v) :: items' =>
              i ← from_json n v;
              rest ← sidecars_of items';
              Some (i :: rest)
          end in
      let find_sidecars :=
        fix find_sidecars (d : list (string * json)) : option (list Image) :=
          match d with
          | [] => Some []
          | (k, v) :: d' =>
              if String.eqb "sidecars" k
              then match v with
                   | JDict items => sidecars_of items
                   | _ => None
                   end
              else find_sidecars d'
          end in
      sidecars ← find_sidecars d;
      repo_digest ← as_optstr (pydict.get "repo_digest" d);
      docker_commands ← as_strlist (pydict.get "docker_commands" d);
      old_size ← as_optint (pydict.get "old_size" d);
      new_size ← as_optint (pydict.get "new_size" d);
      envs ← as_strlist (pydict.get "envs" d);
      mounts ← as_list_or_empty (pydict.get "mounts" d) ≫= mapM mount_of_json;
      test_ports ← as_list_or_empty (pydict.get "test_ports" d) ≫= mapM port_of_json;
      skip ← as_bool_or false (pydict.get "skip" d);
      Some {| name := name; repo_digest := repo_digest;
              test_ports := test_ports; docker_commands := docker_commands;
              old_size := old_size; new_size := new_size; envs := envs;
              mounts := mounts; skip := skip; sidecars := sidecars |}
  | _ => None
  end.

(** What a descriptor looks like once [docker_commands] is dropped from it
    and from every sidecar below it. *)
Fixpoint without_commands (i : Image) : Image :=
  {| name := name i; repo_digest := repo_digest i;
     test_ports := test_ports i; docker_commands := [];
     old_size := old_size i; new_size := new_size i; envs := envs i;
     mounts := mounts i; skip := skip i;
     sidecars := map without_commands (sidecars i) |}.

(** No two sidecars of one parent share a name, at every level. *)
Fixpoint unique_sidecar_names (i : Image) : bool :=
  bool_decide (NoDup (map name (sidecars i)))
  && forallb unique_sidecar_names (sidecars i).

End images.

(** ** [pathlib] and [os.path] on POSIX: paths as values *)

Module pathlib.

(** The root of a parsed path: none, ["/"], or the two slashes POSIX lets
    an implementation treat on their own. *)
Inductive anchor := Relative | Root | Root2.

#[global] Instance anchor_eq_dec : EqDecision anchor.
Proof. solve_decision. Defined.

(** A [PurePosixPath] after parsing: its root and its other parts. *)
Record Path := mkPath { root : anchor; parts : list string }.

#[global] Instance Path_eq_dec : EqDecision Path.
Proof. solve_decision. Defined.

Definition sep : ascii := "/"%char.

(** [_PosixFlavour.splitroot] *)
Definition splitroot (part : string) : anchor * string :=
  match part with
  | String c _ =>
      if Ascii.eqb c sep then
        let stripped_part := pybytes.lstrip sep part in
        if Nat.eqb (String.length part - String.length stripped_part) 2
        then (Root2, stripped_part)
        else (Root, stripped_part)
      else (Relative, part)
  | EmptyString => (Relative, part)
  end.

(** The names of a path string: the pieces between slashes that are
    neither empty nor ["."]. *)
Definition names (rel : string) : list string :=
  filter (fun x => x ≠ EmptyString ∧ x ≠ ".") (pybytes.split sep rel).

(** [Path(s)] *)
Definition parse (s : string) : Path :=
  let '(r, rel) := splitroot s in mkPath r (names rel).

(** [p.joinpath(q)] for a parsed [q]: a rooted [q] replaces [p]. *)
Definition joinpath (p q : Path) : Path :=
  match root q with
  | Relative => mkPath (root p) (parts p ++ parts q)
  | _ => q
  end.

Definition anchor_str (a : anchor) : string :=
  match a with Relative => "" | Root => "/" | Root2 => "//" end.

(** [str(p)] *)
Definition str (p : Path) : string :=
  match root p, parts p with
  | Relative, [] => "."
  | a, ps => anchor_str a +:+ pybytes.join "/" ps
  end.

(** [p.parent] *)
Definition parent (p : Path) : Path := mkPath (root p) (removelast (parts p)).

(** [p.is_absolute()] *)
Definition is_absolute (p : Path) : bool := bool_decide (root p ≠ Relative).

Fixpoint strip_prefix (pre l : list string) : option (list string) :=
  match pre, l with
  | [], _ => Some l
  | x :: pre', y :: l' => if decide (x = y) then strip_prefix pre' l' else None
  | _ :: _, [] => None
  end.

(** [p.relative_to(other)] *)
Definition relative_to (p other : Path) : result Path :=
  if decide (root p = root other) then
    match strip_prefix (parts other) (parts p) with
    | Some rest => Ok (mkPath Relative rest)
    | None => Raise ValueError
    end
  else Raise ValueError.

(** The loop of [os.path.normpath] on the names of an absolute path: [".."]
    removes the name before it and is dropped at the root. *)
Fixpoint normpath_names (new_comps comps : list string) : list string :=
  match comps with
  | [] => new_comps
  | comp :: comps' =>
      if decide (comp = "..")
      then normpath_names (removelast new_comps) comps'
      else normpath_names (new_comps ++ [comp]) comps'
  end.

Fixpoint commonprefix_len (l1 l2 : list string) : nat :=
  match l1, l2 with
  | x :: l1', y :: l2' => if decide (x = y) then S (commonprefix_len l1' l2') else O
  | _, _ => O
  end.

(** [Path(os.path.relpath(path, start))] for absolute [path] and [start]. *)
Definition relpath (path start : Path) : Path :=
  let start_list := normpath_names [] (parts start) in
  let path_list := normpath_names [] (parts path) in
  let i := commonprefix_len start_list path_list in
  mkPath Relative
    (replicate (length start_list - i) ".." ++ drop i path_list).

End pathlib.

(** ** The file system the shadow tree is built in *)

Module fs.

(** A file-system object.  Regular files carry no content: the code only
    creates empty placeholders and never reads them back. *)
Inductive node : Type :=
| File
| Symlink (target : string)
| Dir (entries : list (string * node)).

Definition is_dir (n : node) : bool :=
  match n with Dir _ => true | _ => false end.

(** The object at a path without [".."] and symbolic links, from the root. *)
Fixpoint lookup (n : node) (p : list string) : option node :=
  match p with
  | [] => Some n
  | c :: p' =>
      match n with
      | Dir entries =>
          match pydict.get c entries with
          | Some n' => lookup n' p'
          | None => None
          end
      | _ => None
      end
  end.

(** Put [x] at a path whose parent is an existing directory. *)
Fixpoint put (n : node) (p : list string) (x : node) : node :=
  match p with
  | [] => x
  | c :: p' =>
      match n with
      | Dir entries =>
          match p', pydict.get c entries with
          | [], _ => Dir (pydict.set c x entries)
          | _, Some n' => Dir (pydict.set c (put n' p' x) entries)
          | _, None => n
          end
      | _ => n
      end
  end.

(** The number of symbolic links Linux follows in one path lookup. *)
Definition MAXSYMLINKS : nat := 40.

(** Path lookup as the kernel does it, from the directory [cur] (given
    without links) along [comps].  The result is the place the path leads
    to and the object there, [None] when only the last name is missing.
    Every symbolic link is followed, the last one only if [follow]. *)
Fixpoint walk (budget : nat) (root : node) (follow : bool)
    (cur comps : list string) {struct budget}
    : errno + (list string * option node) :=
  (fix go (cur comps : list string) {struct comps} :=
     match comps with
     | [] => inr (cur, lookup root cur)
     | c :: rest =>
         if decide (c = "..") then go (removelast cur) rest
         else
           let here := cur ++ [c] in
           match lookup root here with
           | None => match rest with [] => inr (here, None) | _ => inl ENOENT end
           | Some (Dir _) => go here rest
           | Some File =>
               match rest with [] => inr (here, Some File) | _ => inl ENOTDIR end
           | Some (Symlink target) =>
               match rest, follow with
               | [], false => inr (here, Some (Symlink target))
               | _, _ =>
                   match budget with
                   | O => inl ELOOP
                   | S budget' =>
                       let '(a, rel) := pathlib.splitroot target in
                       walk budget' root follow
                         (match a with pathlib.Relative => cur | _ => [] end)
                         (pathlib.names rel ++ rest)
                   end
               end
           end
     end) cur comps.

(** The system calls take the string of an absolute path; its names are the
    parts of the parsed path. *)
Definition namei (root : node) (follow : bool) (p : pathlib.Path) :=
  walk MAXSYMLINKS root follow [] (pathlib.parts p).

(** [stat(2)] *)
Definition stat (root : node) (p : pathlib.Path) : errno + node :=
  match namei root true p with
  | inl e => inl e
  | inr (_, Some n) => inr n
  | inr (_, None) => inl ENOENT
  end.

(** [readlink(2)] *)
Definition readlink (root : node) (p : pathlib.Path) : errno + string :=
  match namei root false p with
  | inl e => inl e
  | inr (_, Some (Symlink target)) => inr target
  | inr (_, Some _) => inl EINVAL
  | inr (_, None) => inl ENOENT
  end.

(** [mkdir(2)] and [symlink(2)]: create [x] under a name that is free. *)
Definition create (root : node) (p : pathlib.Path) (x : node) : errno + node :=
  match namei root false p with
  | inl e => inl e
  | inr (_, Some _) => inl EEXIST
  | inr (place, None) => inr (put root place x)
  end.

(** [open(2)] with [O_WRONLY|O_CREAT|O_TRUNC], then [close(2)]. *)
Definition open_w (root : node) (p : pathlib.Path) : errno + node :=
  match namei root true p with
  | inl e => inl e
  | inr (_, Some File) => inr root
  | inr (_, Some (Dir _)) => inl EISDIR
  | inr (_, Some (Symlink _)) => inl ELOOP
  | inr (place, None) => inr (put root place File)
  end.

End fs.

(** ** [pathlib.Path]: paths that touch the file system *)

Module ospath.
Import pathlib.

Definition of_errno {A} (r : errno + A) : result A :=
  match r with inl e => Raise (OSError e) | inr a => Ok a end.

(** [p.exists()]: the errors [ENOENT], [ENOTDIR] and [ELOOP] of [stat] mean
    that the path does not exist (CPython 3.8 and later). *)
Definition exists_ (root : fs.node) (p : Path) : bool :=
  match fs.stat root p with inr _ => true | inl _ => false end.

(** [p.is_dir()] *)
Definition is_dir (root : fs.node) (p : Path) : bool :=
  match fs.stat root p with inr n => fs.is_dir n | inl _ => false end.

(** [p.mkdir(parents=True, exist_ok=True)].  The recursion of [Path.mkdir]
    on [self.parent] is a recursion on the parts, last part first. *)
Fixpoint mkdir_rev (root : fs.node) (a : anchor) (rparts : list string)
    : result fs.node :=
  let self := mkPath a (rev rparts) in
  match fs.create root self (fs.Dir []) with
  | inr root' => Ok root'
  | inl ENOENT =>
      match rparts with
      | [] => Raise (OSError ENOENT)
      | _ :: rparent =>
          root' ← mkdir_rev root a rparent;
          match fs.create root' self (fs.Dir []) with
          | inr root'' => Ok root''
          | inl ENOENT => Raise (OSError ENOENT)
          | inl e => if is_dir root' self then Ok root' else Raise (OSError e)
          end
      end
  | inl e => if is_dir root self then Ok root else Raise (OSError e)
  end.

Definition mkdir_parents (root : fs.node) (p : Path) : result fs.node :=
  mkdir_rev root (pathlib.root p) (rev (parts p)).

(** [p.symlink_to(target)] *)
Definition symlink_to (root : fs.node) (p target : Path) : result fs.node :=
  of_errno (fs.create root p (fs.Symlink (str target))).

(** [open(p, "w").close()] *)
Definition touch (root : fs.node) (p : Path) : result fs.node :=
  of_errno (fs.open_w root p).

(** The frames Python allows on its stack by default; the frames in use when
    [resolve] is called are not counted. *)
Definition recursion_limit : nat := 1000.

(** The memo of [_PosixFlavour.resolve]: the links met so far, each with its
    resolution once that is known. *)
Definition seen_t : Type := list (list string * option (list string)).

Fixpoint seen_get (k : list string) (seen : seen_t) : option (option (list string)) :=
  match seen with
  | [] => None
  | (k', v) :: seen' => if decide (k = k') then Some v else seen_get k seen'
  end.

Fixpoint seen_set (k : list string) (v : option (list string)) (seen : seen_t) : seen_t :=
  match seen with
  | [] => [(k, v)]
  | (k', v') :: seen' =>
      if decide (k = k') then (k, v) :: seen' else (k', v') :: seen_set k v seen'
  end.

(** The local function [_resolve(path, rest)] of [_PosixFlavour.resolve] with
    [strict=False].  [path] is the resolved prefix, kept as its names, and
    [rest] is given by its root and names. *)
Fixpoint _resolve (depth : nat) (root : fs.node) (seen : seen_t)
    (path : list string) (rest_abs : bool) (rest : list string) {struct depth}
    : result (seen_t * list string) :=
  (fix loop (seen : seen_t) (path : list string) (names : list string)
       {struct names} : result (seen_t * list string) :=
     match names with
     | [] => Ok (seen, path)
     | name :: names' =>
         if decide (name = "..") then loop seen (removelast path) names'
         else
           let newpath := path ++ [name] in
           match seen_get newpath seen with
           | Some (Some path') => loop seen path' names'
           | Some None => Raise RuntimeError
           | None =>
               match fs.readlink root (mkPath Root newpath) with
               | inl _ => loop seen newpath names'
               | inr target =>
                   match depth with
                   | O => Raise RecursionError
                   | S depth' =>
                       let seen := seen_set newpath None seen in
                       let '(a, rel) := splitroot target in
                       '(seen, path') ←
                         _resolve depth' root seen path
                           (bool_decide (a ≠ Relative)) (pathlib.names rel);
                       loop (seen_set newpath (Some path') seen) path' names'
                   end
               end
           end
     end) seen (if rest_abs then [] else path) rest.

(** [p.resolve()] for an absolute [p]. *)
Definition resolve (root : fs.node) (p : Path) : result Path :=
  '(_, path) ← _resolve recursion_limit root [] [] true (parts p);
  Ok (mkPath Root path).

End ospath.

(** ** [tarfile]: archives as lists of members *)

Module tarfile.

Inductive member_type :=
| REGTYPE | AREGTYPE | LNKTYPE | SYMTYPE | CHRTYPE | BLKTYPE | DIRTYPE
| FIFOTYPE | CONTTYPE | GNUTYPE_SPARSE.

#[global] Instance member_type_eq_dec : EqDecision member_type.
Proof. solve_decision. Defined.

(** The header of a member.  Names are text that encodes to UTF-8.  The
    size is not a field of its own: it is the length of the member's data. *)
Record TarInfo := mkTarInfo {
  name : string;
  mode : N;
  uid : N;
  gid : N;
  mtime : Z;
  type : member_type;
  linkname : string;
  uname : string;
  gname : string
}.

(** A member as it lies in the archive: the header, then the bytes of the
    file (none unless the member is a regular file). *)
Record member := mkMember { info : TarInfo; data : string }.

Definition isreg (t : TarInfo) : bool :=
  match type t with
  | REGTYPE | AREGTYPE | CONTTYPE | GNUTYPE_SPARSE => true
  | _ => false
  end.

Definition isdir (t : TarInfo) : bool := bool_decide (type t = DIRTYPE).

Definition issym (t : TarInfo) : bool := bool_decide (type t = SYMTYPE).

(** [TarFile.addfile(tarinfo, fileobj)] on the archive written so far:
    without a file object only the header is written. *)
Definition addfile (destination : list member) (tarinfo : TarInfo)
    (fileobj : option string) : list member :=
  destination ++ [mkMember tarinfo (default EmptyString fileobj)].

End tarfile.

(** ** [shrink_containers.py]: [shrink_image] *)

Module shrink_containers.
Import pathlib tarfile.

(** The paths every image keeps. *)
Definition bootstrap : list string :=
  [ "/.dockerenv";
    "/etc/passwd";
    "/lib/ld-musl-x86_64.so.1";
    "/lib64/ld-linux-x86-64.so.2";
    "/lib/x86_64-linux-gnu/ld-2.31.so";
    "/node_modules/mongo-express/public/images/favicon.ico" ].

(** Lines 351-370: the bootstrap paths and the absolute paths of the log,
    whose records end in a NUL byte. *)
Definition seed_path_set (logs : string) : gset string :=
  foldl (fun path_set p =>
           if pybytes.startswith p "/" then path_set ∪ {[p]} else path_set)
        (list_to_set bootstrap)
        (pybytes.split "000"%char logs).

(** What the scan of the archive builds: the path set, the interpreter of
    every script, and the file system that holds the shadow tree. *)
Record scan_state := mkScan {
  path_set : gset string;
  shebangs : list (string * string);
  tree : fs.node
}.

Section shrink_image.
(** The temporary directory of the run (an absolute path), and the order
    in which Python iterates over a set of byte strings. *)
Variable tempdir : Path.
Variable order : gset string → list string.

Definition slash : Path := parse "/".
Definition symlink_tree : Path := joinpath tempdir (parse "symlinks").

(** Lines 389-424: the body of the first loop over the archive. *)
Definition scan_entry (st : scan_state) (m : member) : result scan_state :=
  let entry := info m in
  let path := joinpath slash (parse (name entry)) in
  let path_str := str path in
  if issym entry then
    let sym := joinpath symlink_tree (parse (name entry)) in
    tree1 ← ospath.mkdir_parents (tree st) (parent sym);
    let target := parse (linkname entry) in
    target ←
      (if is_absolute target then
         rel ← relative_to target slash;
         let target := joinpath symlink_tree rel in
         Ok (relpath target (parent sym))
       else Ok target);
    tree2 ← ospath.symlink_to tree1 sym target;
    Ok (mkScan (path_set st) (shebangs st) tree2)
  else if negb (isreg entry) then Ok st
  else
    let dummy := joinpath symlink_tree (parse (name entry)) in
    tree1 ← ospath.mkdir_parents (tree st) (parent dummy);
    tree2 ← ospath.touch tree1 dummy;
    (* [extractfile] gives a file object for every regular member *)
    let res := data m in
    let shebang := pybytes.readline res in
    if negb (pybytes.startswith shebang "#!")
    then Ok (mkScan (path_set st) (shebangs st) tree2)
    else
      shebang_interp ←
        match pybytes.split_whitespace (pybytes.drop 2 shebang) with
        | w :: _ => Ok w
        | [] => Raise IndexError
        end;
      if negb (pybytes.startswith shebang_interp "/")
      then Ok (mkScan (path_set st) (shebangs st) tree2)
      else
        let shebangs' := pydict.set (name entry) shebang_interp (shebangs st) in
        if bool_decide (path_str ∈ path_set st) then
          (* the message that is printed decodes the interpreter *)
          _ ← pybytes.decode shebang_interp;
          Ok (mkScan (path_set st ∪ {[shebang_interp]}) shebangs' tree2)
        else Ok (mkScan (path_set st) shebangs' tree2).

(** Lines 430-454: the body of the loop over the paths of the set.  The
    shadow tree and the interpreters are those the scan has built. *)
Definition close_path (st : scan_state) (path_set : gset string)
    (byte_p : string) : result (gset string) :=
  s ← pybytes.decode byte_p;
  let p := parse s in
  match relative_to p slash with
  | Raise _ => Ok path_set
  | Ok rel =>
      let p := joinpath symlink_tree rel in
      if ospath.exists_ (tree st) p then
        new_p ← ospath.resolve (tree st) p;
        if bool_decide (new_p = p) then Ok path_set
        else
          match relative_to new_p symlink_tree with
          | Raise _ => Ok path_set
          | Ok path =>
              path_set ←
                match pydict.get (str path) (shebangs st) with
                | Some shebang =>
                    s ← pybytes.decode shebang;
                    r ← ospath.resolve (tree st)
                          (joinpath symlink_tree (parse (pybytes.drop 1 s)));
                    rel ← relative_to r symlink_tree;
                    let resolved := joinpath slash rel in
                    Ok (path_set ∪ {[str resolved]})
                | None => Ok path_set
                end;
              Ok (path_set ∪ {[str (joinpath slash path)]})
          end
      else Ok path_set
  end.

(** Lines 351-454: the path set that decides which files are kept. *)
Definition resolve_path_set (host : fs.node) (logs : string)
    (source : list member) : result (gset string) :=
  st ← for_each scan_entry source (mkScan (seed_path_set logs) [] host);
  for_each (close_path st) (order (path_set st)) (path_set st).

End shrink_image.

(** Line 461: the absolute path an entry stands for. *)
Definition entry_name (entry : TarInfo) : string :=
  str (joinpath slash (parse (name entry))).

(** Lines 460-471: the body of the loop that writes the reduced archive. *)
Definition write_entry (path_set : gset string) (destination : list member)
    (m : member) : list member :=
  let entry := info m in
  if isdir entry || issym entry || bool_decide (entry_name entry ∈ path_set) then
    let fileobj := if isreg entry then Some (data m) else None in
    addfile destination entry fileobj
  else destination.

(** Lines 456-474: the reduced archive. *)
Definition write_reduced (path_set : gset string) (source : list member)
    : list member :=
  foldl (write_entry path_set) [] source.

(** [shrink_image] up to the archive it imports as the new image. *)
Definition shrink_image (tempdir : Path) (order : gset string → list string)
    (host : fs.node) (logs : string) (source : list member)
    : result (list member) :=
  path_set ← resolve_path_set tempdir order host logs source;
  Ok (write_reduced path_set source).

End shrink_containers.

(** ** [shrink_containers.py]: the instrumented run and the main loop *)

Module pipeline.
Import images.

Definition set_envs (image : Image) (envs' : list string) : Image :=
  {| name := name image; repo_digest := repo_digest image;
     test_ports := test_ports image; docker_commands := docker_commands image;
     old_size := old_size image; new_size := new_size image; envs := envs';
     mounts := mounts image; skip := skip image; sidecars := sidecars image |}.

Definition set_sizes (image : Image) (old new : Z) : Image :=
  {| name := name image; repo_digest := repo_digest image;
     test_ports := test_ports image; docker_commands := docker_commands image;
     old_size := Some old; new_size := Some new; envs := envs image;
     mounts := mounts image; skip := skip image; sidecars := sidecars image |}.

Section run_container_instrumented.
(** The address [docker inspect] reports for the container a sidecar was
    started in: [NetworkSettings.IPAddress]. *)
Variable ip_address : Image → string.

(** Lines 280-284: the started sidecars, by name. *)
Definition started_sidecars (image : Image) : list (string * string) :=
  foldl (fun sidecars sidecar =>
           pydict.set (name sidecar) (ip_address sidecar) sidecars)
        [] (sidecars image).

(** Lines 288-291: the inner loop, for the entry [env] read at index [i]. *)
Definition substitute_entry (sidecars : list (string * string))
    (envs : list string) (i : nat) (env : string) : list string :=
  foldl (fun envs n_sidecar =>
           <[i := pybytes.replace env ("${" +:+ fst n_sidecar +:+ "}")
                                  (snd n_sidecar)]> envs)
        envs sidecars.

(** Lines 287-291: the loop over [enumerate(image.envs)]. *)
Fixpoint substitute_from (sidecars : list (string * string))
    (envs : list string) (i : nat) (todo : list string) : list string :=
  match todo with
  | [] => envs
  | env :: todo' =>
      substitute_from sidecars (substitute_entry sidecars envs i env)
                      (S i) todo'
  end.

(** Lines 280-291: the copy of the image the parent container is started
    from.  The image given by the caller is a value and stays as it is. *)
Definition instrumented_image (image : Image) : Image :=
  let sidecars := started_sidecars image in
  set_envs image (substitute_from sidecars (envs image) 0 (envs image)).
End run_container_instrumented.

(** The truth value of an [Optional[int]]. *)
Definition truthy (size : option Z) : bool :=
  match size with
  | Some n => negb (n =? 0)%Z
  | None => false
  end.

(** Line 527: [(image.old_size and image.new_size) or image.skip] *)
Definition bypassed (image : Image) : bool :=
  (truthy (old_size image) && truthy (new_size image)) || skip image.

(** What the loop of [main] does, image by image. *)
Inductive event :=
| Skip (image : Image)
| Analyze (image : Image)
| WriteImages (images : list Image).

Section main.
(** [analyze_image]: every container, archive and analysis operation on
    one image, in a world the operations change.  It gives the sizes of
    the exported and of the reduced archive, or raises. *)
Variable world : Type.
Variable analyze_image : world → Image → world * result (Z * Z).

(** Lines 526-531.  [seen] holds the images before the current one, as
    the loop has left them. *)
Fixpoint main_loop (w : world) (seen todo : list Image)
    : list event * result (list Image) :=
  match todo with
  | [] => ([], Ok seen)
  | image :: todo' =>
      if bypassed image then
        let '(evs, r) := main_loop w (seen ++ [image]) todo' in
        (Skip image :: evs, r)
      else
        match analyze_image w image with
        | (_, Raise e) => ([Analyze image], Raise e)
        | (w', Ok (old, new)) =>
            let image' := set_sizes image old new in
            let '(evs, r) := main_loop w' (seen ++ [image']) todo' in
            (Analyze image :: WriteImages (seen ++ image' :: todo') :: evs, r)
        end
  end.

Definition main (w : world) (images : list Image) :=
  main_loop w [] images.
End main.

End pipeline.

(** ** [images.py]: the descriptor file, and [export_tsv.py] *)

Module images_io.
Import images.

(** [sorted(...)] by a key, as [json.dump] does with [sort_keys=True]:
    strings compare by their characters, a prefix before its extensions. *)
Fixpoint insert_by {A : Type} (key : A → string) (x : A) (l : list A) : list A :=
  match l with
  | [] => [x]
  | y :: l' =>
      if String.leb (key x) (key y) then x :: l else y :: insert_by key x l'
  end.

Fixpoint sort_by {A : Type} (key : A → string) (l : list A) : list A :=
  match l with
  | [] => []
  | x :: l' => insert_by key x (sort_by key l')
  end.

(** What [json.load] reads from the text [json.dump(value, sort_keys=True)]
    has written: the same value with the keys of every dict in order. *)
Fixpoint dump_load (value : json) : json :=
  match value with
  | JList l => JList (map dump_load l)
  | JDict d =>
      JDict (sort_by fst (map (fun kv => let '(k, v) := kv in (k, dump_load v)) d))
  | _ => value
  end.

(** [write_images]: the dict handed to [json.dump]. *)
Definition write_images (images : list Image) : json :=
  JDict (pydict.of_pairs (map (fun i => (name i, as_json i)) images)).

(** [read_images] on what [json.load] has read. *)
Definition read_images (loaded : json) : option (list Image) :=
  match loaded with
  | JDict items => mapM (fun nv => from_json (fst nv) (snd nv)) items
  | _ => None
  end.

(** A descriptor as a write and a read leave it: without its
    [docker_commands], and with its sidecars in the order of their names,
    at every depth. *)
Fixpoint reread (i : Image) : Image :=
  {| name := name i; repo_digest := repo_digest i;
     test_ports := test_ports i; docker_commands := [];
     old_size := old_size i; new_size := new_size i; envs := envs i;
     mounts := mounts i; skip := skip i;
     sidecars := sort_by name (map reread (sidecars i)) |}.

(** The truth value of an [Optional[str]]. *)
Definition has_digest (image : Image) : bool :=
  match repo_digest image with
  | Some EmptyString | None => false
  | Some _ => true
  end.

Definition set_digest (image : Image) (digest : string) : Image :=
  {| name := name image; repo_digest := Some digest;
     test_ports := test_ports image; docker_commands := docker_commands image;
     old_size := old_size image; new_size := new_size image;
     envs := envs image; mounts := mounts image; skip := skip image;
     sidecars := sidecars image |}.

(** What the loop of [images.main] does. *)
Inductive pin_event :=
| Pull (name : string)
| WriteImages (images : list Image).

Section main.
(** [docker pull] of a name, then [docker inspect] and the first of its
    [RepoDigests]; any of the three may raise. *)
Variable world : Type.
Variable pull_digest : world → string → world * result string.

(** Lines 109-118 of [images.py].  [seen] holds the images before the
    current one, as the loop has left them. *)
Fixpoint pin_loop (w : world) (seen todo : list Image)
    : list pin_event * result (list Image) :=
  match todo with
  | [] => ([], Ok seen)
  | img :: todo' =>
      if has_digest img then pin_loop w (seen ++ [img]) todo'
      else
        match pull_digest w (name img) with
        | (_, Raise e) => ([Pull (name img)], Raise e)
        | (w', Ok digest) =>
            let img' := set_digest img digest in
            let '(evs, r) := pin_loop w' (seen ++ [img']) todo' in
            (Pull (name img) :: WriteImages (seen ++ img' :: todo') :: evs, r)
        end
  end.

Definition main (w : world) (images : list Image) := pin_loop w [] images.
End main.

(** [export_tsv.py], lines 17-23: the rows of the table, one for each image
    whose two sizes are set and not zero. *)
Definition export_rows (images : list Image) : list (string * Z * Z) :=
  flat_map (fun i =>
              match old_size i, new_size i with
              | Some old, Some new =>
                  if (old =? 0)%Z || (new =? 0)%Z then []
                  else [(name i, old, new)]
              | _, _ => []
              end) images.

End images_io.

(** ** [shrink_containers.py]: the name of a container (line 255) *)

Module run_container.

(** [(name or image.name).replace(":", "-").replace("/", "-")] *)
Definition container_name (name : option string) (image : images.Image)
    : string :=
  let n := match name with
           | Some (String _ _ as given) => given
           | _ => images.name image
           end in
  pybytes.replace (pybytes.replace n ":" "-") "/" "-".

(** Line 283: the name a sidecar is started under. *)
Definition sidecar_name (image sidecar : images.Image) : string :=
  container_name
    (Some (images.name image +:+ "-" +:+ images.name sidecar)) sidecar.

End run_container.

(** ** Archives and a host to run [shrink_image] on *)

Section Fixtures.
Import pathlib tarfile shrink_containers.

Definition dir_member (name : string) : member :=
  mkMember (mkTarInfo name 493 0 0 0 DIRTYPE "" "root" "root") "".

Definition reg_member (name : string) (data : string) : member :=
  mkMember (mkTarInfo name 493 0 0 0 REGTYPE "" "root" "root") data.

Definition sym_member (name linkname : string) : member :=
  mkMember (mkTarInfo name 511 0 0 0 SYMTYPE linkname "root" "root") "".

(** A line end, which a string literal cannot hold. *)
Definition nl : string := String "010" "".
Definition nul : string := String "000" "".

(** The temporary directory [/tmp/tmpshrink], holding the log directory and
    the exported archive when the scan starts. *)
Definition tmpdir : Path := parse "/tmp/tmpshrink".

Definition host0 : fs.node :=
  fs.Dir [("tmp", fs.Dir [("tmpshrink",
             fs.Dir [("logs", fs.Dir [("logs", fs.File)]);
                     ("export", fs.File)])])].

(** The chain [/a -> /b -> /c] of the specification, with [/a] logged. *)
Definition chain_archive : list member :=
  [sym_member "a" "/b"; sym_member "b" "/c"; reg_member "c" "data"].

Definition chain_logs : string := "/a" +:+ nul.

(** The script of the specification, logged, and its interpreter. *)
Definition script_archive : list member :=
  [dir_member "usr"; dir_member "usr/bin";
   reg_member "usr/bin/run.sh" ("#!/bin/sh -e" +:+ nl +:+ "echo ok" +:+ nl);
   dir_member "bin"; reg_member "bin/sh" "ELF"].

Definition script_logs : string := "/usr/bin/run.sh" +:+ nul.

(** The scenario that ends the specification: [/usr/local/bin/app] is a
    link to [/bin/sh] and is the one path of the log. *)
Definition app_archive : list member :=
  [dir_member "bin"; reg_member "bin/sh" "ELF";
   dir_member "etc"; reg_member "etc/passwd" "root:x:0:0::/:/bin/sh";
   reg_member "etc/motd" "hello";
   sym_member "usr/local/bin/app" "/bin/sh"].

Definition app_logs : string := "/usr/local/bin/app" +:+ nul.

(** An image whose shell is a relative link with more [..] than its
    directory is deep.  In the container the link leads to
    [/usr/bin/dash], since [..] of the root is the root; in the shadow
    tree it leads out of the tree.  The entry point is a link to a script
    run by that shell, and is the one path of the log. *)
Definition escaping_archive : list member :=
  [dir_member "bin"; sym_member "bin/sh" "../../usr/bin/dash";
   dir_member "usr"; dir_member "usr/bin"; reg_member "usr/bin/dash" "ELF";
   dir_member "opt"; reg_member "opt/run.sh" ("#!/bin/sh" +:+ nl +:+ "exec app");
   sym_member "entrypoint" "/opt/run.sh"].

Definition escaping_logs : string := "/entrypoint" +:+ nul.

(** Paths the closure passes over: a link to nothing, two links to each
    other, a link out of the tree, and a record that starts with two
    slashes. *)
Definition anomalies_archive : list member :=
  [sym_member "dangling" "/nowhere";
   sym_member "loop1" "loop2"; sym_member "loop2" "loop1";
   sym_member "outside" "../logs/logs"].

Definition anomalies_logs : string :=
  "/dangling" +:+ nul +:+ "/loop1" +:+ nul +:+ "/outside" +:+ nul
  +:+ "//etc/passwd" +:+ nul.
End Fixtures.

(** * Properties *)

(** ** The models of the Python library on small inputs *)

Section pathlib_examples.
Import pathlib.

Example parse_relative : parse "./usr//bin/run.sh" = mkPath Relative ["usr"; "bin"; "run.sh"].
Proof. reflexivity. Qed.

Example parse_two_slashes : parse "//etc/passwd" = mkPath Root2 ["etc"; "passwd"].
Proof. reflexivity. Qed.

Example parse_three_slashes : parse "///etc" = mkPath Root ["etc"].
Proof. reflexivity. Qed.

Example str_root : str (joinpath (parse "/") (parse "")) = "/".
Proof. reflexivity. Qed.

Example str_joined : str (joinpath (parse "/") (parse "bin/sh")) = "/bin/sh".
Proof. reflexivity. Qed.

Example relpath_up :
  relpath (parse "/t/symlinks/bin/busybox") (parse "/t/symlinks/usr/bin")
  = mkPath Relative [".."; ".."; "bin"; "busybox"].
Proof. reflexivity. Qed.

Example readline_first :
  pybytes.readline (String "#" (String "!" (String "/" (String "010" "x")))) =
  String "#" (String "!" (String "/" (String "010" ""))).
Proof. reflexivity. Qed.

Example split_whitespace_words :
  pybytes.split_whitespace "  /bin/sh  -e " = ["/bin/sh"; "-e"].
Proof. reflexivity. Qed.

Example replace_all : pybytes.replace "a${x}b${x}" "${x}" "10.0.0.2" = "a10.0.0.2b10.0.0.2".
Proof. reflexivity. Qed.
End pathlib_examples.

(** ** Descriptor persistence ([images.py]) *)

Section DictFacts.
Context {V : Type}.
Implicit Types (d : list (string * V)) (k : string) (v : V).

Lemma dict_set_fresh k v d :
  k ∉ pydict.keys d → pydict.set k v d = d ++ [(k, v)].
Proof.
  induction d as [|[k' v'] d IH]; simpl; [done|].
  intros Hk. destruct (String.eqb_spec k k') as [->|Hne].
  - exfalso. apply Hk. left.
  - f_equal. apply IH. intros Hin. apply Hk. by right.
Qed.

Lemma dict_keys_app d1 d2 :
  pydict.keys (d1 ++ d2) = pydict.keys d1 ++ pydict.keys d2.
Proof. unfold pydict.keys. apply map_app. Qed.

(** Building a dict from pairs with distinct keys keeps the pairs. *)
Lemma dict_fold_set_nodup (pairs acc : list (string * V)) :
  NoDup (pydict.keys (acc ++ pairs)) →
  fold_left (fun d kv => pydict.set (fst kv) (snd kv) d) pairs acc
  = acc ++ pairs.
Proof.
  revert acc. induction pairs as [|[k v] pairs IH]; intros acc Hnd; simpl.
  - by rewrite app_nil_r.
  - rewrite dict_set_fresh.
    + rewrite IH; rewrite <- app_assoc; simpl; done.
    + rewrite dict_keys_app in Hnd. apply NoDup_app in Hnd as (_ & Hdisj & _).
      intros Hin. apply (Hdisj k Hin). simpl. left.
Qed.

Lemma dict_of_pairs_nodup (pairs : list (string * V)) :
  NoDup (pydict.keys pairs) → pydict.of_pairs pairs = pairs.
Proof. intros Hnd. unfold pydict.of_pairs. by rewrite dict_fold_set_nodup. Qed.
End DictFacts.

(** Induction over a descriptor and all the sidecars below it. *)
Fixpoint Image_nested_ind (P : images.Image → Prop)
    (step : ∀ i, Forall P (images.sidecars i) → P i)
    (i : images.Image) {struct i} : P i :=
  step i
    (match i as i0 return Forall P (images.sidecars i0) with
     | images.mkImage _ _ _ _ _ _ _ _ _ scs =>
         (fix all (l : list images.Image) : Forall P l :=
            match l with
            | [] => @List.Forall_nil _ P
            | x :: l' => @List.Forall_cons _ P x l' (Image_nested_ind P step x) (all l')
            end) scs
     end).

Section ImagesFacts.
Import images.

(** The loop over [.items()] of the sidecar mapping. *)
Definition sidecars_of (items : list (string * json)) : option (list Image) :=
  mapM (fun nv => from_json (fst nv) (snd nv)) items.

(** [value.get("sidecars", {})], then the loop. *)
Definition find_sidecars (d : list (string * json)) : option (list Image) :=
  match pydict.get "sidecars" d with
  | None => Some []
  | Some (JDict items) => sidecars_of items
  | Some _ => None
  end.

Definition from_json_fields (name : string) (d : list (string * json))
    : option Image :=
  sidecars ← find_sidecars d;
  repo_digest ← as_optstr (pydict.get "repo_digest" d);
  docker_commands ← as_strlist (pydict.get "docker_commands" d);
  old_size ← as_optint (pydict.get "old_size" d);
  new_size ← as_optint (pydict.get "new_size" d);
  envs ← as_strlist (pydict.get "envs" d);
  mounts ← as_list_or_empty (pydict.get "mounts" d) ≫= mapM mount_of_json;
  test_ports ← as_list_or_empty (pydict.get "test_ports" d) ≫= mapM port_of_json;
  skip ← as_bool_or false (pydict.get "skip" d);
  Some {| name := name; repo_digest := repo_digest;
          test_ports := test_ports; docker_commands := docker_commands;
          old_size := old_size; new_size := new_size; envs := envs;
          mounts := mounts; skip := skip; sidecars := sidecars |}.

(** [from_json] with its two local loops named. *)
Opaque String.eqb.
Lemma from_json_dict name d : from_json name (JDict d) = from_json_fields name d.
Proof.
  unfold from_json_fields. simpl.
  match goal with |- ?f d ≫= _ = _ => assert (f d = find_sidecars d) as -> end;
    [|done].
  unfold find_sidecars.
  induction d as [|[k v] d IH]; [done|].
  simpl pydict.get. destruct (String.eqb "sidecars" k); [|exact IH].
  destruct v as [| | | | |items]; try done.
  unfold sidecars_of. induction items as [|[n v] items IHi]; [done|].
  simpl. destruct (from_json n v); [|done]. simpl.
  rewrite IHi. done.
Qed.
Transparent String.eqb.

Lemma mapM_map_inverse {A B} (f : A → B) (g : B → option A) (l : list A) :
  (∀ x, g (f x) = Some x) → mapM g (map f l) = Some l.
Proof.
  intros Hgf. induction l as [|x l IH]; [done|].
  simpl. rewrite Hgf. simpl. by rewrite IH.
Qed.

Lemma mapM_as_str (l : list string) : mapM as_str (map JStr l) = Some l.
Proof. by apply mapM_map_inverse. Qed.

Lemma mount_of_json_inverse (p : Mount) :
  mount_of_json (JDict [("from_path", JStr (from_path p));
                        ("to_path", JStr (to_path p))]) = Some p.
Proof. by destruct p. Qed.

Lemma port_of_json_inverse (p : Port) :
  port_of_json
    (let test_port := [("num", JInt (num p))] in
     JDict (if wget p
            then pydict.set "wget" (JBool (wget p)) test_port
            else test_port)) = Some p.
Proof. by destruct p as [n []]. Qed.

Lemma sidecars_of_as_json (scs : list Image) :
  Forall (fun i => unique_sidecar_names i = true →
                   from_json (name i) (as_json i) = Some (without_commands i)) scs →
  forallb unique_sidecar_names scs = true →
  sidecars_of (map (fun sidecar => (name sidecar, as_json sidecar)) scs)
  = Some (map without_commands scs).
Proof.
  unfold sidecars_of.
  induction 1 as [|i scs Hi _ IH]; [done|]. simpl.
  intros [Hu Hus]%andb_prop. rewrite (Hi Hu). simpl. rewrite (IH Hus). done.
Qed.
End ImagesFacts.

Section ImageRoundTrip.
Import images.

Lemma sidecar_pairs_keys (scs : list Image) :
  pydict.keys (map (fun sidecar => (name sidecar, as_json sidecar)) scs)
  = map name scs.
Proof. unfold pydict.keys. rewrite map_map. done. Qed.

(** C10 (amended): when no two sidecars of one parent share a name, at any
    depth, reading back what [as_json] wrote gives the same descriptor with
    [docker_commands] emptied, in the descriptor and in its sidecars. *)
Theorem image_json_roundtrip (i : Image) :
  unique_sidecar_names i = true →
  from_json (name i) (as_json i) = Some (without_commands i).
Proof.
  induction i as [i IH] using Image_nested_ind.
  intros Hu.
  destruct i as [nm rd tps dc os ns es ms sk scs].
  cbn [as_json name repo_digest test_ports docker_commands old_size new_size
       envs mounts skip sidecars].
  rewrite from_json_dict.
  simpl in Hu, IH. apply andb_prop in Hu as [Hnd Hus].
  apply bool_decide_eq_true in Hnd.
  pose proof (sidecars_of_as_json scs IH Hus) as Hsc.
  rewrite <- (dict_of_pairs_nodup
                (map (fun sidecar => (name sidecar, as_json sidecar)) scs))
    in Hsc by (by rewrite sidecar_pairs_keys).
  unfold from_json_fields, find_sidecars.
  destruct sk, os as [o|], ns as [n|];
    cbn [pydict.get pydict.set String.eqb Ascii.eqb Bool.eqb];
    rewrite Hsc;
    cbn [as_optstr as_optint as_strlist as_list_or_empty as_bool_or
         mbind option_bind];
    rewrite mapM_as_str;
    rewrite (mapM_map_inverse _ mount_of_json) by (by intros []);
    rewrite (mapM_map_inverse _ port_of_json) by (by intros [? []]);
    by destruct rd.
Qed.

Definition two_sidecars_one_name : Image :=
  {| name := "app"; repo_digest := None; test_ports := [];
     docker_commands := []; old_size := None; new_size := None;
     envs := []; mounts := []; skip := false;
     sidecars :=
       [ {| name := "db"; repo_digest := Some "db@sha256:1"; test_ports := [];
            docker_commands := []; old_size := None; new_size := None;
            envs := []; mounts := []; skip := false; sidecars := [] |};
         {| name := "db"; repo_digest := Some "db@sha256:2"; test_ports := [];
            docker_commands := []; old_size := None; new_size := None;
            envs := []; mounts := []; skip := false; sidecars := [] |} ] |}.

(** C10 fails as stated: two sidecars with one name are written under one
    key of the sidecar mapping, so only one sidecar is read back. *)
Lemma image_json_roundtrip_fails :
  from_json (name two_sidecars_one_name) (as_json two_sidecars_one_name)
  ≠ Some (without_commands two_sidecars_one_name)
  ∧ (length ∘ sidecars)
      <$> from_json (name two_sidecars_one_name) (as_json two_sidecars_one_name)
    = Some 1%nat.
Proof. split; [vm_compute; discriminate|reflexivity]. Qed.

Definition app_with_sidecar : Image :=
  {| name := "app"; repo_digest := Some "app@sha256:0";
     test_ports := [mkPort 80 true; mkPort 8080 false];
     docker_commands := ["make"]; old_size := Some 100%Z; new_size := None;
     envs := ["DB=${db}"]; mounts := [mkMount "data" "/data"]; skip := true;
     sidecars :=
       [ {| name := "db"; repo_digest := Some "db@sha256:1"; test_ports := [];
            docker_commands := ["init"]; old_size := None; new_size := None;
            envs := []; mounts := []; skip := false; sidecars := [] |} ] |}.

Lemma image_json_roundtrip_witness :
  unique_sidecar_names app_with_sidecar = true
  ∧ from_json (name app_with_sidecar) (as_json app_with_sidecar)
    = Some (without_commands app_with_sidecar).
Proof.
  split; [reflexivity|].
  apply (image_json_roundtrip app_with_sidecar). reflexivity.
Defined.
End ImageRoundTrip.

(** ** The rewriter (lines 456-474) *)

Section Rewriter.
Import pathlib tarfile shrink_containers.

(** What the loop writes for one member, if it writes it. *)
Definition written (path_set : gset string) (m : member) : option member :=
  if isdir (info m) || issym (info m)
     || bool_decide (entry_name (info m) ∈ path_set)
  then Some (mkMember (info m)
                      (if isreg (info m) then data m else EmptyString))
  else None.

Lemma write_loop_omap path_set source destination :
  foldl (write_entry path_set) destination source
  = destination ++ omap (written path_set) source.
Proof.
  revert destination.
  induction source as [|m source IH]; intros destination; simpl.
  - by rewrite app_nil_r.
  - rewrite IH. unfold write_entry, written, addfile.
    destruct (isdir (info m) || issym (info m)
              || bool_decide (entry_name (info m) ∈ path_set)); simpl.
    + destruct (isreg (info m)); simpl; by rewrite <- app_assoc.
    + done.
Qed.

Lemma write_reduced_omap path_set source :
  write_reduced path_set source = omap (written path_set) source.
Proof. unfold write_reduced. by rewrite write_loop_omap. Qed.

Lemma omap_written_cons path_set m source :
  omap (written path_set) (m :: source)
  = match written path_set m with
    | Some m' => m' :: omap (written path_set) source
    | None => omap (written path_set) source
    end.
Proof. done. Qed.

Lemma isreg_not_dir_sym (t : TarInfo) :
  isreg t = true → isdir t || issym t = false.
Proof.
  unfold isreg, isdir, issym. destruct (type t); try discriminate; done.
Qed.

(** C1: the header of every directory and of every symbolic link of the
    source is in the reduced archive, and a regular file of the source is
    in the reduced archive exactly when its path is in the path set. *)
Theorem rewriter_retention (path_set : gset string) (source : list member)
    (m : member) :
  m ∈ source →
  (isdir (info m) || issym (info m) = true →
   info m ∈ info <$> write_reduced path_set source)
  ∧ (isreg (info m) = true →
     (m ∈ write_reduced path_set source ↔ entry_name (info m) ∈ path_set)).
Proof.
  intros Hm. rewrite write_reduced_omap. split.
  - intros Hds. apply list_elem_of_fmap.
    exists (mkMember (info m) (if isreg (info m) then data m else EmptyString)).
    split; [done|]. apply list_elem_of_omap. exists m. split; [done|].
    unfold written. by rewrite Hds.
  - intros Hreg. rewrite list_elem_of_omap. split.
    + intros (m0 & _ & Hw). unfold written in Hw.
      destruct (isdir (info m0) || issym (info m0)) eqn:Hds; simpl in Hw.
      * injection Hw as <-. simpl in Hreg.
        apply isreg_not_dir_sym in Hreg. congruence.
      * case_bool_decide as Hin; [|done]. injection Hw as <-. done.
    + intros Hin. exists m. split; [done|]. unfold written.
      rewrite (isreg_not_dir_sym _ Hreg), Hreg. simpl.
      rewrite bool_decide_eq_true_2 by done. by destruct m.
Qed.

(** The paths of all the regular files of an archive. *)
Definition regular_paths (source : list member) : gset string :=
  list_to_set
    (entry_name ∘ info <$> filter (λ m, isreg (info m) = true) source).

(** C7: with the paths of all its regular files as the path set, the
    reduced archive holds the regular files of the source, each with its
    header and its bytes, in the order of the source. *)
Theorem rewrite_all_regular_files (source : list member) :
  filter (λ m, isreg (info m) = true)
         (write_reduced (regular_paths source) source)
  = filter (λ m, isreg (info m) = true) source.
Proof.
  rewrite write_reduced_omap.
  assert (∀ m, m ∈ source → isreg (info m) = true →
               entry_name (info m) ∈ regular_paths source) as Hall.
  { intros m Hm Hreg. unfold regular_paths. apply elem_of_list_to_set.
    apply list_elem_of_fmap. exists m. split; [done|].
    apply list_elem_of_filter. done. }
  generalize dependent (regular_paths source). intros path_set Hall.
  induction source as [|m source IH]; [done|].
  assert (∀ m0, m0 ∈ source → isreg (info m0) = true →
                entry_name (info m0) ∈ path_set) as Hall'.
  { intros m0 Hm0. apply Hall. by right. }
  specialize (IH Hall').
  rewrite omap_written_cons, (filter_cons _ m source).
  destruct (decide (isreg (info m) = true)) as [Hreg|Hnreg].
  - unfold written at 1.
    rewrite (isreg_not_dir_sym _ Hreg), Hreg.
    rewrite bool_decide_eq_true_2 by (apply Hall; [left|done]).
    cbn [orb]. rewrite filter_cons. cbn [info].
    rewrite decide_True by done.
    rewrite IH. by destruct m.
  - destruct (written path_set m) as [m'|] eqn:Hw; [|done].
    rewrite filter_cons. rewrite decide_False; [done|].
    unfold written in Hw.
    destruct (isdir (info m) || issym (info m)
              || bool_decide (entry_name (info m) ∈ path_set)); [|done].
    injection Hw as <-. done.
Qed.
End Rewriter.

(** ** The path set (lines 351-454) *)

Section ForEach.
Context {A S : Type}.
Implicit Types (body : S → A → result S) (l : list A) (s : S).

Lemma for_each_app body l1 l2 s :
  for_each body (l1 ++ l2) s = s' ← for_each body l1 s; for_each body l2 s'.
Proof.
  revert s. induction l1 as [|a l1 IH]; intros s; simpl; [done|].
  destruct (body s a) as [s'|e]; simpl; [apply IH|done].
Qed.

(** A relation every round of the loop keeps holds from start to end. *)
Lemma for_each_preserves (R : S → S → Prop) body l s s' :
  (∀ s, R s s) →
  (∀ s1 s2 s3, R s1 s2 → R s2 s3 → R s1 s3) →
  (∀ s a s', a ∈ l → body s a = Ok s' → R s s') →
  for_each body l s = Ok s' → R s s'.
Proof.
  intros Hrefl Htrans. revert s.
  induction l as [|a l IH]; intros s Hbody Hrun; simpl in Hrun.
  - injection Hrun as <-. apply Hrefl.
  - destruct (body s a) as [s1|e] eqn:Ha; simpl in Hrun; [|done].
    apply (Htrans _ s1).
    + apply (Hbody s a); [left|done].
    + apply IH; [|done]. intros s2 a2 s3 Hin. apply Hbody. by right.
Qed.
End ForEach.

Lemma bind_ok_inv {A B : Type} (m : result A) (k : A → result B) (y : B) :
  m ≫= k = Ok y → ∃ a, m = Ok a ∧ k a = Ok y.
Proof. destruct m as [a|e]; [by exists a|done]. Qed.

Lemma bind_raise_inv {A B : Type} (m : result A) (k : A → result B) (e : exn) :
  m ≫= k = Raise e → m = Raise e ∨ ∃ a, m = Ok a ∧ k a = Raise e.
Proof.
  destruct m as [a|e']; intros H; [right; by exists a|left].
  by injection H as ->.
Qed.

(** Splits a hypothesis [(x ← m; k) = Ok y] on the result of [m]. *)
Ltac bind_ok H :=
  let a := fresh "a" in
  let E := fresh "E" in
  apply bind_ok_inv in H as (a & E & H); cbv beta in H.

Section PathSet.
Import pathlib tarfile shrink_containers.
Variable tempdir : Path.

(** The seed: the bootstrap paths and the records of the log that start
    with a slash. *)
Lemma elem_of_seed_path_set (logs p : string) :
  p ∈ seed_path_set logs ↔
  p ∈ bootstrap
  ∨ (p ∈ pybytes.split "000" logs ∧ pybytes.startswith p "/" = true).
Proof.
  unfold seed_path_set.
  generalize (pybytes.split "000" logs). intros records.
  assert (∀ (init : gset string),
    p ∈ foldl (λ path_set p,
                 if pybytes.startswith p "/" then path_set ∪ {[p]}
                 else path_set) init records
    ↔ p ∈ init ∨ (p ∈ records ∧ pybytes.startswith p "/" = true)) as Hfold.
  { induction records as [|r records IH]; intros init; simpl.
    - split; [by left|]. intros [?|[[]%elem_of_nil _]]. done.
    - rewrite IH. destruct (pybytes.startswith r "/") eqn:Hr.
      + rewrite elem_of_union, elem_of_singleton, elem_of_cons.
        split; [intros [[?| ->]|[? ?]]|intros [?|[[->|?] ?]]]; eauto.
      + rewrite elem_of_cons.
        split; [intros [?|[? ?]]|intros [?|[[->|?] ?]]]; eauto; congruence. }
  rewrite Hfold, elem_of_list_to_set. done.
Qed.

(** A round of the scan only adds to the path set. *)
Lemma scan_entry_grows st m st' :
  scan_entry tempdir st m = Ok st' → path_set st ⊆ path_set st'.
Proof.
  unfold scan_entry. intros H.
  destruct (issym (info m)).
  { repeat bind_ok H. injection H as <-. done. }
  destruct (negb (isreg (info m))).
  { injection H as <-. done. }
  repeat bind_ok H.
  destruct (negb (pybytes.startswith _ "#!")).
  { injection H as <-. done. }
  bind_ok H.
  destruct (negb (pybytes.startswith _ "/")).
  { injection H as <-. done. }
  case_bool_decide.
  - bind_ok H. injection H as <-. simpl. set_solver.
  - injection H as <-. done.
Qed.

(** A round of the closure only adds to the path set. *)
Lemma close_path_grows st path_set byte_p path_set' :
  close_path tempdir st path_set byte_p = Ok path_set' →
  path_set ⊆ path_set'.
Proof.
  unfold close_path. intros H.
  bind_ok H.
  destruct (relative_to _ slash); [|by injection H as <-].
  destruct (ospath.exists_ _ _); [|by injection H as <-].
  bind_ok H.
  case_bool_decide; [by injection H as <-|].
  destruct (relative_to _ (symlink_tree tempdir)); [|by injection H as <-].
  bind_ok H. injection H as <-.
  match goal with
  | Hadd : match pydict.get ?k ?d with _ => _ end = Ok _ |- _ =>
      destruct (pydict.get k d); [do 3 bind_ok Hadd|];
      injection Hadd as <-; set_solver
  end.
Qed.

Lemma scan_archive_grows source st st' :
  for_each (scan_entry tempdir) source st = Ok st' →
  path_set st ⊆ path_set st'.
Proof.
  apply (for_each_preserves (λ s1 s2, path_set s1 ⊆ path_set s2)).
  - done.
  - intros s1 s2 s3 H12 H23. by transitivity (path_set s2).
  - intros s a s' _. apply scan_entry_grows.
Qed.

Lemma close_paths_grows st todo path_set path_set' :
  for_each (close_path tempdir st) todo path_set = Ok path_set' →
  path_set ⊆ path_set'.
Proof.
  apply (for_each_preserves (λ s1 s2 : gset string, s1 ⊆ s2)).
  - done.
  - intros s1 s2 s3 H12 H23. by transitivity s2.
  - intros s a s' _. apply close_path_grows.
Qed.

(** The set the closure starts from is within the set it ends with. *)
Lemma resolve_path_set_scan order host logs source S :
  resolve_path_set tempdir order host logs source = Ok S →
  ∃ st, for_each (scan_entry tempdir) source
                 (mkScan (seed_path_set logs) [] host) = Ok st
        ∧ path_set st ⊆ S.
Proof.
  unfold resolve_path_set. intros H. bind_ok H.
  eexists. split; [done|]. by eapply close_paths_grows.
Qed.

(** A script whose path is in the set when the scan meets it adds its
    interpreter to the set. *)
Lemma scan_entry_adds_interpreter st m st' interp rest :
  scan_entry tempdir st m = Ok st' →
  isreg (info m) = true →
  entry_name (info m) ∈ path_set st →
  pybytes.startswith (pybytes.readline (data m)) "#!" = true →
  pybytes.split_whitespace (pybytes.drop 2 (pybytes.readline (data m)))
    = interp :: rest →
  pybytes.startswith interp "/" = true →
  interp ∈ path_set st'.
Proof.
  unfold scan_entry. intros H Hreg Hin Hmark Hsplit Habs.
  pose proof (isreg_not_dir_sym _ Hreg) as [_ Hsym]%orb_false_elim.
  rewrite Hsym, Hreg in H. cbn [negb] in H.
  repeat bind_ok H.
  rewrite Hmark, Hsplit in H. cbn [negb mbind result_bind] in H.
  rewrite Habs in H. cbn [negb] in H.
  rewrite bool_decide_eq_true_2 in H by exact Hin.
  bind_ok H. injection H as <-. simpl. set_solver.
Qed.
End PathSet.

(** C5: a round of either loop leaves every path of the set in it, and the
    set the resolution returns holds the bootstrap paths and every record
    of the log that starts with a slash. *)
Theorem path_set_only_grows (tempdir : pathlib.Path) :
  (∀ st m st',
     shrink_containers.scan_entry tempdir st m = Ok st' →
     shrink_containers.path_set st ⊆ shrink_containers.path_set st')
  ∧ (∀ st path_set byte_p path_set',
       shrink_containers.close_path tempdir st path_set byte_p = Ok path_set' →
       path_set ⊆ path_set')
  ∧ (∀ order host logs source S,
       shrink_containers.resolve_path_set tempdir order host logs source = Ok S →
       ∀ p, p ∈ shrink_containers.bootstrap
            ∨ (p ∈ pybytes.split "000" logs ∧ pybytes.startswith p "/" = true) →
            p ∈ S).
Proof.
  split; [apply scan_entry_grows|].
  split; [apply close_path_grows|].
  intros order host logs source S HS p Hp.
  apply resolve_path_set_scan in HS as (st & Hscan & Hsub).
  apply Hsub. apply scan_archive_grows in Hscan. apply Hscan. simpl.
  by apply elem_of_seed_path_set.
Qed.

Section Interpreters.
Import pathlib tarfile shrink_containers.
Variable tempdir : Path.

(** Lines 408-410: the empty file the scan puts in the shadow tree for a
    regular member. *)
Definition shadow_file (root : fs.node) (m : member) : result fs.node :=
  let dummy := joinpath (symlink_tree tempdir) (parse (name (info m))) in
  tree1 ← ospath.mkdir_parents root (parent dummy);
  ospath.touch tree1 dummy.

(** The round of the scan on a script whose path is in the set: once the
    shadow file is made and the interpreter decodes for the message, the
    round returns, with the interpreter recorded and added to the set. *)
Lemma scan_entry_script st m interp rest tree2 :
  isreg (info m) = true →
  entry_name (info m) ∈ path_set st →
  pybytes.startswith (pybytes.readline (data m)) "#!" = true →
  pybytes.split_whitespace (pybytes.drop 2 (pybytes.readline (data m)))
    = interp :: rest →
  pybytes.startswith interp "/" = true →
  (∃ s, pybytes.decode interp = Ok s) →
  shadow_file (tree st) m = Ok tree2 →
  scan_entry tempdir st m
  = Ok (mkScan (path_set st ∪ {[interp]})
               (pydict.set (name (info m)) interp (shebangs st)) tree2).
Proof.
  intros Hreg Hin Hmark Hsplit Habs [s Hs] Hshadow.
  unfold shadow_file in Hshadow. bind_ok Hshadow.
  pose proof (isreg_not_dir_sym _ Hreg) as [_ Hsym]%orb_false_elim.
  destruct (scan_entry tempdir st m) as [st'|e] eqn:H; revert H;
    unfold scan_entry; intros H; rewrite Hsym, Hreg in H; cbn [negb] in H.
  - repeat bind_ok H.
    rewrite E in E0. injection E0 as <-.
    rewrite Hshadow in E1. injection E1 as <-.
    rewrite Hmark, Hsplit in H. cbn [negb mbind result_bind] in H.
    rewrite Habs in H. cbn [negb] in H.
    rewrite bool_decide_eq_true_2 in H by exact Hin.
    bind_ok H. by injection H as <-.
  - exfalso.
    apply bind_raise_inv in H as [H|(tree1 & E1 & H)]; [congruence|].
    rewrite E in E1. injection E1 as <-.
    apply bind_raise_inv in H as [H|(tree2' & E2 & H)]; [congruence|].
    rewrite Hmark, Hsplit in H. cbn [negb mbind result_bind] in H.
    rewrite Habs in H. cbn [negb] in H.
    rewrite bool_decide_eq_true_2 in H by exact Hin.
    apply bind_raise_inv in H as [H|(s' & _ & H)]; congruence.
Qed.

(** The same round when the interpreter does not decode: the message of
    line 422 raises before the interpreter is added. *)
Lemma scan_entry_undecodable st m interp rest :
  isreg (info m) = true →
  entry_name (info m) ∈ path_set st →
  pybytes.startswith (pybytes.readline (data m)) "#!" = true →
  pybytes.split_whitespace (pybytes.drop 2 (pybytes.readline (data m)))
    = interp :: rest →
  pybytes.startswith interp "/" = true →
  pybytes.utf8_wf (pybytes.values interp) = false →
  ∃ e, scan_entry tempdir st m = Raise e.
Proof.
  intros Hreg Hin Hmark Hsplit Habs Hwf.
  destruct (scan_entry tempdir st m) as [st'|e] eqn:H; [|by exists e].
  exfalso. revert H. unfold scan_entry. intros H.
  pose proof (isreg_not_dir_sym _ Hreg) as [_ Hsym]%orb_false_elim.
  rewrite Hsym, Hreg in H. cbn [negb] in H.
  repeat bind_ok H.
  rewrite Hmark, Hsplit in H. cbn [negb mbind result_bind] in H.
  rewrite Habs in H. cbn [negb] in H.
  rewrite bool_decide_eq_true_2 in H by exact Hin.
  bind_ok H. unfold pybytes.decode in E1. by rewrite Hwf in E1.
Qed.

(** When the resolution returns, the set it returns holds the interpreter
    of every script whose path is in the seed set. *)
Lemma resolution_keeps_interpreter order host logs source S m interp rest :
  resolve_path_set tempdir order host logs source = Ok S →
  m ∈ source →
  isreg (info m) = true →
  entry_name (info m) ∈ seed_path_set logs →
  pybytes.startswith (pybytes.readline (data m)) "#!" = true →
  pybytes.split_whitespace (pybytes.drop 2 (pybytes.readline (data m)))
    = interp :: rest →
  pybytes.startswith interp "/" = true →
  interp ∈ S.
Proof.
  intros HS Hm Hreg Hseed Hmark Hsplit Habs.
  apply resolve_path_set_scan in HS as (st & Hscan & Hsub).
  apply list_elem_of_split in Hm as (l1 & l2 & ->).
  rewrite for_each_app in Hscan. bind_ok Hscan.
  simpl in Hscan. bind_ok Hscan.
  apply Hsub. apply scan_archive_grows in Hscan. apply Hscan.
  eapply scan_entry_adds_interpreter; try done.
  apply scan_archive_grows in E. apply E. done.
Qed.
End Interpreters.

(** C4 (amended): a regular file whose path is in the set when the scan
    meets it, and whose first line is [#!] and then an absolute interpreter
    path that is well-formed UTF-8, has the interpreter added to the set by
    that round of the scan, which returns once the shadow file of the
    member is made; and whenever the resolution returns, the set it returns
    holds the interpreter of every such file whose path is in the seed
    set. *)
Theorem shebang_interpreter_kept (tempdir : pathlib.Path) :
  (∀ st m interp rest tree2,
     tarfile.isreg (tarfile.info m) = true →
     shrink_containers.entry_name (tarfile.info m)
       ∈ shrink_containers.path_set st →
     pybytes.startswith (pybytes.readline (tarfile.data m)) "#!" = true →
     pybytes.split_whitespace
       (pybytes.drop 2 (pybytes.readline (tarfile.data m))) = interp :: rest →
     pybytes.startswith interp "/" = true →
     (∃ s, pybytes.decode interp = Ok s) →
     shadow_file tempdir (shrink_containers.tree st) m = Ok tree2 →
     shrink_containers.scan_entry tempdir st m
     = Ok (shrink_containers.mkScan
             (shrink_containers.path_set st ∪ {[interp]})
             (pydict.set (tarfile.name (tarfile.info m)) interp
                (shrink_containers.shebangs st))
             tree2))
  ∧ (∀ order host logs source S m interp rest,
       shrink_containers.resolve_path_set tempdir order host logs source
       = Ok S →
       m ∈ source →
       tarfile.isreg (tarfile.info m) = true →
       shrink_containers.entry_name (tarfile.info m)
         ∈ shrink_containers.seed_path_set logs →
       pybytes.startswith (pybytes.readline (tarfile.data m)) "#!" = true →
       pybytes.split_whitespace
         (pybytes.drop 2 (pybytes.readline (tarfile.data m))) = interp :: rest →
       pybytes.startswith interp "/" = true →
       interp ∈ S).
Proof.
  split.
  - intros st m interp rest tree2. apply scan_entry_script.
  - intros order host logs source S m interp rest.
    apply resolution_keeps_interpreter.
Qed.

(** ** The order of iteration over the path set (line 429) *)

(** The set a run gives, if it gives one. *)
Definition returned {A} (r : result A) : option A :=
  match r with Ok a => Some a | Raise _ => None end.

Lemma returned_Some {A} (r : result A) (a : A) : returned r = Some a → r = Ok a.
Proof. destruct r; simpl; congruence. Qed.

(** Decides a closed goal by evaluation. *)
Ltac by_compute := apply (bool_decide_unpack _); vm_compute; exact I.

Section IterationOrder.
Import pathlib tarfile shrink_containers.
Variable tempdir : Path.

(** A round of the closure adds, to whatever the set holds, paths that
    depend on the path of the round alone. *)
Lemma close_path_adds st path_set byte_p :
  close_path tempdir st path_set byte_p
  = added ← close_path tempdir st ∅ byte_p; Ok (path_set ∪ added).
Proof.
  assert (Ok path_set
          = added ← Ok (∅ : gset string); Ok (path_set ∪ added)) as Hnone.
  { cbn [mbind result_bind]. by rewrite (right_id_L ∅ (∪)). }
  unfold close_path.
  destruct (pybytes.decode byte_p) as [s|e]; cbn [mbind result_bind]; [|done].
  destruct (relative_to _ slash) as [rel|e]; [|exact Hnone].
  destruct (ospath.exists_ _ _); [|exact Hnone].
  destruct (ospath.resolve _ _) as [new_p|e]; cbn [mbind result_bind]; [|done].
  case_bool_decide; [exact Hnone|].
  destruct (relative_to new_p _) as [path|e]; [|exact Hnone].
  destruct (pydict.get _ _) as [shebang|]; cbn [mbind result_bind].
  - destruct (pybytes.decode shebang) as [s'|e]; cbn [mbind result_bind]; [|done].
    destruct (ospath.resolve _ _) as [r|e]; cbn [mbind result_bind]; [|done].
    destruct (relative_to r _) as [rel'|e]; cbn [mbind result_bind]; [|done].
    by rewrite (left_id_L ∅ (∪)), (assoc_L (∪)).
  - by rewrite (left_id_L ∅ (∪)).
Qed.

Lemma close_paths_swap st path_set a b :
  returned (s ← close_path tempdir st path_set a; close_path tempdir st s b)
  = returned (s ← close_path tempdir st path_set b; close_path tempdir st s a).
Proof.
  rewrite (close_path_adds st path_set a), (close_path_adds st path_set b).
  destruct (close_path tempdir st ∅ a) as [da|ea] eqn:Ha,
           (close_path tempdir st ∅ b) as [db|eb] eqn:Hb;
    cbn [mbind result_bind];
    rewrite ?(close_path_adds st (_ ∪ _)), ?Ha, ?Hb;
    cbn [mbind result_bind returned]; try done.
  f_equal. rewrite <- !(assoc_L (∪)). f_equal. apply (comm_L (∪)).
Qed.

(** The closure gives the same set, or raises, for every order the paths
    are taken in. *)
Lemma close_paths_permutation st l1 l2 :
  l1 ≡ₚ l2 →
  ∀ path_set,
    returned (for_each (close_path tempdir st) l1 path_set)
    = returned (for_each (close_path tempdir st) l2 path_set).
Proof.
  induction 1 as [|a l1 l2 _ IH|a b l|l1 l2 l3 _ IH12 _ IH23];
    intros path_set.
  - done.
  - simpl. destruct (close_path tempdir st path_set a); simpl; [apply IH|done].
  - pose proof (close_paths_swap st path_set b a) as Hswap.
    simpl.
    destruct (close_path tempdir st path_set b) as [sb|eb];
      destruct (close_path tempdir st path_set a) as [sa|ea];
      cbn [mbind result_bind returned] in *.
    + destruct (close_path tempdir st sb a) as [sba|e1];
        destruct (close_path tempdir st sa b) as [sab|e2];
        cbn [mbind result_bind returned] in *; try done.
      by injection Hswap as ->.
    + by destruct (close_path tempdir st sb a).
    + by destruct (close_path tempdir st sa b).
    + done.
  - by rewrite IH12.
Qed.
End IterationOrder.

(** The resolution under any order gives what it gives under the order of
    [elements]. *)
Lemma resolve_path_set_elements (tempdir : pathlib.Path)
    (order : gset string → list string) (host : fs.node)
    (logs : string) (source : list tarfile.member) :
  (∀ S, order S ≡ₚ elements S) →
  returned (shrink_containers.resolve_path_set tempdir order host logs source)
  = returned (shrink_containers.resolve_path_set tempdir elements host logs source).
Proof.
  intros Horder. unfold shrink_containers.resolve_path_set.
  destruct (for_each _ source _) as [st|e]; cbn [mbind result_bind]; [|done].
  by apply close_paths_permutation.
Qed.

(** C6 (amended): the resolution gives the same path set, or raises both
    times, for every order in which Python may iterate over the set, so two
    runs on the same archive and log agree when they have the same host and
    the same temporary directory. *)
Theorem resolve_path_set_deterministic (tempdir : pathlib.Path)
    (order1 order2 : gset string → list string) (host : fs.node)
    (logs : string) (source : list tarfile.member) :
  (∀ S, order1 S ≡ₚ elements S) →
  (∀ S, order2 S ≡ₚ elements S) →
  returned (shrink_containers.resolve_path_set tempdir order1 host logs source)
  = returned (shrink_containers.resolve_path_set tempdir order2 host logs source).
Proof.
  intros H1 H2.
  rewrite (resolve_path_set_elements tempdir order1) by done.
  rewrite (resolve_path_set_elements tempdir order2) by done.
  done.
Qed.

(** ** The resolution on the archives of the specification *)

Section Scenarios.
Import pathlib tarfile shrink_containers.

Definition reversed_elements (S : gset string) : list string :=
  reverse (elements S).

Lemma reversed_elements_permutation S : reversed_elements S ≡ₚ elements S.
Proof. unfold reversed_elements. apply reverse_Permutation. Qed.




















(** What the amended claim asks of the archive and of the host.  The end
    of the chain is not added when [c] is a directory with nothing below
    it, for the scan puts no directory of the archive in the shadow tree;
    nor when [/tmp] is a link on the host, for then the resolved path is
    not under the shadow tree as the code names it.  And the link [/b] is
    added when a bootstrap file of the archive names it as its
    interpreter. *)
Example chain_to_directory :
  ∃ S, resolve_path_set tmpdir elements host0 chain_logs
         [sym_member "a" "/b"; sym_member "b" "/c"; dir_member "c"] = Ok S
       ∧ "/c" ∉ S.
Proof.
  exists (list_to_set bootstrap ∪ {["/a"]}).
  split; [apply returned_Some; by_compute|by_compute].
Qed.

Definition linked_tmp_host : fs.node :=
  fs.Dir [("private", fs.Dir [("tmp", fs.Dir [("tmpshrink",
             fs.Dir [("logs", fs.Dir [("logs", fs.File)]);
                     ("export", fs.File)])])]);
          ("tmp", fs.Symlink "private/tmp")].

Example chain_under_linked_tmp :
  ∃ S, resolve_path_set tmpdir elements linked_tmp_host chain_logs
         chain_archive = Ok S
       ∧ "/c" ∉ S.
Proof.
  exists (list_to_set bootstrap ∪ {["/a"]}).
  split; [apply returned_Some; by_compute|by_compute].
Qed.

Example chain_with_interpreter :
  ∃ S, resolve_path_set tmpdir elements host0 chain_logs
         (chain_archive
          ++ [dir_member "etc"; reg_member "etc/passwd" ("#!/b" +:+ nl)])
       = Ok S
       ∧ "/b" ∈ S.
Proof.
  exists (list_to_set bootstrap ∪ {["/a"; "/b"; "/c"]}).
  split; [apply returned_Some; by_compute|by_compute].
Qed.

Lemma escaping_resolution :
  resolve_path_set tmpdir elements host0 escaping_logs escaping_archive
  = Raise ValueError.
Proof. vm_compute. reflexivity. Qed.

(** C3: a script reached through a link, whose interpreter resolves to a
    place out of the shadow tree, makes the resolution raise, whatever the
    order of iteration: no path set is returned. *)
Theorem escaping_interpreter_raises (order : gset string → list string) :
  (∀ S, order S ≡ₚ elements S) →
  ∃ e, resolve_path_set tmpdir order host0 escaping_logs escaping_archive
       = Raise e.
Proof.
  intros Horder.
  pose proof (resolve_path_set_elements tmpdir order host0 escaping_logs
                escaping_archive Horder) as Heq.
  rewrite escaping_resolution in Heq.
  destruct (resolve_path_set tmpdir order host0 escaping_logs escaping_archive)
    as [S|e]; [done|]. by exists e.
Qed.

Lemma escaping_interpreter_raises_witness :
  (∀ S : gset string, elements S ≡ₚ elements S)
  ∧ ∃ e, resolve_path_set tmpdir elements host0 escaping_logs
           escaping_archive = Raise e.
Proof.
  split; [done|]. apply (escaping_interpreter_raises elements). done.
Defined.

(** The other anomalies are passed over: the paths stay as logged and
    nothing is added for them. *)
Lemma anomalies_resolution :
  resolve_path_set tmpdir elements host0 anomalies_logs anomalies_archive
  = Ok (list_to_set bootstrap
        ∪ {["/dangling"; "/loop1"; "/outside"; "//etc/passwd"]}).
Proof. apply returned_Some. by_compute. Qed.
(** An archive with a link that names the temporary directory of one run,
    and a host with a fresh temporary directory of a given name. *)
Definition tempdir_link_archive : list member :=
  [reg_member "c" "data"; sym_member "x" "../../t1/symlinks/c"].

Definition tempdir_link_logs : string := "/x" +:+ nul.

Definition fresh_host (dir : string) : fs.node :=
  fs.Dir [("tmp", fs.Dir [(dir,
             fs.Dir [("logs", fs.Dir [("logs", fs.File)]);
                     ("export", fs.File)])])].

(** C6 fails as stated: two runs on the same archive and log, each in the
    fresh temporary directory it is given, return different sets when a
    link of the archive leads through the directory of one of them. *)
Lemma resolution_depends_on_tempdir :
  ∃ S1 S2,
    resolve_path_set (parse "/tmp/t1") elements (fresh_host "t1")
      tempdir_link_logs tempdir_link_archive = Ok S1
    ∧ resolve_path_set (parse "/tmp/t2") elements (fresh_host "t2")
        tempdir_link_logs tempdir_link_archive = Ok S2
    ∧ S1 ≠ S2 ∧ "/c" ∈ S1 ∧ "/c" ∉ S2.
Proof.
  exists (list_to_set bootstrap ∪ {["/x"; "/c"]}),
         (list_to_set bootstrap ∪ {["/x"]}).
  split; [apply returned_Some; by_compute|].
  split; [apply returned_Some; by_compute|].
  split; [by_compute|]. split; by_compute.
Qed.

(** A script whose interpreter is named in Latin-1, and is logged. *)
Definition latin1_interpreter : string := "/bin/" +:+ String "255" "".

Definition latin1_script : member :=
  reg_member "run.sh" ("#!" +:+ latin1_interpreter +:+ nl +:+ "echo ok" +:+ nl).

Definition latin1_script_logs : string := "/run.sh" +:+ nul.

(** C4 fails as stated: a logged script whose interpreter path is not
    well-formed UTF-8 has no interpreter added, for the resolution raises
    at the message of line 422 and returns no set. *)
Lemma undecodable_interpreter_not_added :
  isreg (info latin1_script) = true
  ∧ entry_name (info latin1_script) ∈ seed_path_set latin1_script_logs
  ∧ pybytes.startswith (pybytes.readline (data latin1_script)) "#!" = true
  ∧ pybytes.split_whitespace
      (pybytes.drop 2 (pybytes.readline (data latin1_script)))
    = [latin1_interpreter]
  ∧ pybytes.startswith latin1_interpreter "/" = true
  ∧ resolve_path_set tmpdir elements host0 latin1_script_logs [latin1_script]
    = Raise UnicodeDecodeError.
Proof.
  split; [reflexivity|]. split; [by_compute|].
  split; [reflexivity|]. split; [reflexivity|]. split; [reflexivity|].
  vm_compute. reflexivity.
Qed.
(** The shadow file of a member cannot always be made: for a logged script
    [a/run.sh] that comes after a regular file [a], line 409 raises. *)
Example shadow_file_fails :
  resolve_path_set tmpdir elements host0 ("/a/run.sh" +:+ nul)
    [reg_member "a" "x"; reg_member "a/run.sh" ("#!/bin/sh" +:+ nl)]
  = Raise (OSError EEXIST).
Proof. vm_compute. reflexivity. Qed.
End Scenarios.

Section Witnesses.
Import pathlib tarfile shrink_containers.

Lemma rewriter_retention_witness :
  reg_member "etc/motd" "hello" ∈ app_archive
  ∧ (isdir (info (reg_member "etc/motd" "hello"))
     || issym (info (reg_member "etc/motd" "hello")) = true →
     info (reg_member "etc/motd" "hello")
       ∈ info <$> write_reduced {["/bin/sh"]} app_archive)
  ∧ (isreg (info (reg_member "etc/motd" "hello")) = true →
     (reg_member "etc/motd" "hello" ∈ write_reduced {["/bin/sh"]} app_archive
      ↔ entry_name (info (reg_member "etc/motd" "hello"))
          ∈ ({["/bin/sh"]} : gset string))).
Proof.
  assert (reg_member "etc/motd" "hello" ∈ app_archive) as Hin.
  { unfold app_archive. do 4 right. left. }
  split; [exact Hin|].
  exact (rewriter_retention {["/bin/sh"]} app_archive
           (reg_member "etc/motd" "hello") Hin).
Defined.

Lemma script_resolution :
  resolve_path_set tmpdir elements host0 script_logs script_archive
  = Ok (list_to_set bootstrap ∪ {["/usr/bin/run.sh"; "/bin/sh"]}).
Proof. apply returned_Some. by_compute. Qed.

(** The script of the specification when the scan meets it, and the
    shadow tree with its file. *)
Definition script_member : member :=
  reg_member "usr/bin/run.sh" ("#!/bin/sh -e" +:+ nl +:+ "echo ok" +:+ nl).

Definition script_shadow : fs.node :=
  fs.Dir [("tmp", fs.Dir [("tmpshrink",
             fs.Dir [("logs", fs.Dir [("logs", fs.File)]);
                     ("export", fs.File);
                     ("symlinks",
                      fs.Dir [("usr",
                        fs.Dir [("bin", fs.Dir [("run.sh", fs.File)])])])])])].

Lemma shebang_interpreter_kept_witness :
  scan_entry tmpdir (mkScan (seed_path_set script_logs) [] host0) script_member
  = Ok (mkScan (seed_path_set script_logs ∪ {["/bin/sh"]})
               [("usr/bin/run.sh", "/bin/sh")] script_shadow)
  ∧ "/bin/sh" ∈ list_to_set bootstrap
                ∪ ({["/usr/bin/run.sh"; "/bin/sh"]} : gset string).
Proof.
  split.
  - apply (proj1 (shebang_interpreter_kept tmpdir)
             (mkScan (seed_path_set script_logs) [] host0) script_member
             "/bin/sh" ["-e"] script_shadow).
    + reflexivity.
    + by_compute.
    + reflexivity.
    + reflexivity.
    + reflexivity.
    + by exists "/bin/sh".
    + reflexivity.
  - apply (proj2 (shebang_interpreter_kept tmpdir) elements host0 script_logs
             script_archive _ script_member "/bin/sh" ["-e"]).
    + apply script_resolution.
    + unfold script_archive. do 2 right. left.
    + reflexivity.
    + by_compute.
    + reflexivity.
    + reflexivity.
    + reflexivity.
Defined.

Lemma app_resolution :
  resolve_path_set tmpdir elements host0 app_logs app_archive
  = Ok (list_to_set bootstrap ∪ {["/usr/local/bin/app"; "/bin/sh"]}).
Proof. apply returned_Some. by_compute. Qed.

Lemma path_set_only_grows_witness :
  "/usr/local/bin/app" ∈ list_to_set bootstrap
                         ∪ ({["/usr/local/bin/app"; "/bin/sh"]} : gset string).
Proof.
  apply (proj2 (proj2 (path_set_only_grows tmpdir))
           elements host0 app_logs app_archive _ app_resolution).
  right. split; [|reflexivity].
  by_compute.
Defined.

Lemma resolve_path_set_deterministic_witness :
  returned (resolve_path_set tmpdir elements host0 app_logs app_archive)
  = returned (resolve_path_set tmpdir reversed_elements host0 app_logs
                app_archive).
Proof.
  apply (resolve_path_set_deterministic tmpdir elements reversed_elements).
  - done.
  - apply reversed_elements_permutation.
Defined.

(** The scenario that ends the specification: what is kept. *)
Example app_reduced :
  (λ m, name (info m))
    <$> write_reduced
          (list_to_set bootstrap ∪ {["/usr/local/bin/app"; "/bin/sh"]})
          app_archive
  = ["bin"; "bin/sh"; "etc"; "etc/passwd"; "usr/local/bin/app"].
Proof. vm_compute. reflexivity. Qed.
End Witnesses.

(** ** The main loop (lines 520-531) *)

Section MainLoop.
Import images pipeline.
Variable world : Type.
Variable analyze_image : world → Image → world * result (Z * Z).

Lemma main_loop_analyzes_unbypassed w seen todo image :
  Analyze image ∈ (main_loop world analyze_image w seen todo).1 →
  bypassed image = false.
Proof.
  revert w seen. induction todo as [|i todo IH]; intros w seen; simpl.
  - intros []%elem_of_nil.
  - destruct (bypassed i) eqn:Hi.
    + specialize (IH w (seen ++ [i])).
      destruct (main_loop world analyze_image w (seen ++ [i]) todo) as [evs r].
      simpl. intros [Heq|Hin]%elem_of_cons; [done|]. by apply IH.
    + destruct (analyze_image w i) as [w' [[old new]|e]].
      * specialize (IH w' (seen ++ [set_sizes i old new])).
        destruct (main_loop world analyze_image w'
                    (seen ++ [set_sizes i old new]) todo) as [evs r].
        simpl. intros [Heq|[Heq|Hin]%elem_of_cons]%elem_of_cons.
        -- by injection Heq as ->.
        -- done.
        -- by apply IH.
      * simpl. intros [Heq|[]%elem_of_nil]%elem_of_cons. by injection Heq as ->.
Qed.
End MainLoop.

(** C8 (amended): an image whose two sizes are both set and not zero, or
    whose [skip] is set, is never handed to [analyze_image]. *)
Theorem bypassed_image_not_analyzed (world : Type)
    (analyze_image : world → images.Image → world * result (Z * Z))
    (w : world) (run_list : list images.Image) (image : images.Image)
    (old new : Z) :
  image ∈ run_list →
  (images.old_size image = Some old ∧ old ≠ 0%Z
   ∧ images.new_size image = Some new ∧ new ≠ 0%Z)
  ∨ images.skip image = true →
  pipeline.Analyze image ∉ (pipeline.main world analyze_image w run_list).1.
Proof.
  intros _ Hdone Hin.
  apply main_loop_analyzes_unbypassed in Hin.
  unfold pipeline.bypassed, pipeline.truthy in Hin.
  destruct Hdone as [(Ho & Hold & Hn & Hnew)|Hskip].
  - rewrite Ho, Hn in Hin. apply Z.eqb_neq in Hold, Hnew.
    rewrite Hold, Hnew in Hin. done.
  - rewrite Hskip, orb_true_r in Hin. done.
Qed.

Section MainLoopScenarios.
Import images pipeline.

(** A descriptor that carries both sizes, the old one being zero. *)
Definition zero_size_image : Image :=
  {| name := "alpine"; repo_digest := Some "alpine@sha256:0";
     test_ports := []; docker_commands := [];
     old_size := Some 0%Z; new_size := Some 10240%Z;
     envs := []; mounts := []; skip := false; sidecars := [] |}.

Definition finished_image : Image :=
  {| name := "nginx"; repo_digest := Some "nginx@sha256:1";
     test_ports := [mkPort 80 true]; docker_commands := [];
     old_size := Some 5120000%Z; new_size := Some 1024000%Z;
     envs := []; mounts := []; skip := false; sidecars := [] |}.

(** An analysis that succeeds, in a world that counts the analyses. *)
Definition counting_analysis (w : nat) (image : Image)
    : nat * result (Z * Z) :=
  (S w, Ok (20480%Z, 10240%Z)).

(** C8 fails as stated: a descriptor that carries both sizes is analysed
    when one of the sizes is zero. *)
Lemma zero_size_image_analyzed :
  is_Some (old_size zero_size_image) ∧ is_Some (new_size zero_size_image)
  ∧ Analyze zero_size_image
      ∈ (main nat counting_analysis 0%nat [finished_image; zero_size_image]).1.
Proof.
  split; [by eexists|]. split; [by eexists|].
  vm_compute. right. left.
Qed.

Lemma bypassed_image_not_analyzed_witness :
  Analyze finished_image
    ∉ (main nat counting_analysis 0%nat [finished_image; zero_size_image]).1.
Proof.
  apply (bypassed_image_not_analyzed nat counting_analysis 0%nat
           [finished_image; zero_size_image] finished_image
           5120000 1024000).
  - left.
  - left. repeat split; done.
Defined.
End MainLoopScenarios.

(** ** The sidecar addresses (lines 280-291) *)

Section Sidecars.
Import images pipeline.
Variable ip_address : Image → string.

(** The loop over the sidecars writes entry [i] once per sidecar, each time
    from the entry as it was read: what stays is the last write. *)
Lemma substitute_entry_last sidecars envs i env :
  substitute_entry sidecars envs i env
  = match last sidecars with
    | Some n_sidecar =>
        <[i := pybytes.replace env ("${" +:+ n_sidecar.1 +:+ "}") n_sidecar.2]>
          envs
    | None => envs
    end.
Proof.
  unfold substitute_entry.
  induction sidecars as [|x sidecars IH] using rev_ind; [done|].
  rewrite foldl_app, last_snoc. cbn [foldl]. rewrite IH.
  destruct (last sidecars); [|done].
  by rewrite list_insert_insert_eq.
Qed.
End Sidecars.

Section SidecarScenario.
Import images pipeline.

Definition plain_image (name : string) (envs : list string)
    (sidecars : list Image) : Image :=
  {| name := name; repo_digest := Some (name +:+ "@sha256:0");
     test_ports := []; docker_commands := []; old_size := None;
     new_size := None; envs := envs; mounts := []; skip := false;
     sidecars := sidecars |}.

(** A web application with a database and a cache at its side. *)
Definition web_image : Image :=
  plain_image "web" ["DB_HOST=${db}"; "CACHE_HOST=${cache}"]
    [plain_image "db" [] []; plain_image "cache" [] []].

Definition web_addresses (sidecar : Image) : string :=
  if String.eqb (name sidecar) "db" then "172.17.0.2" else "172.17.0.3".

(** C9: with two sidecars, the parent is started with the placeholder of
    the first sidecar still in its environment. *)
Theorem two_sidecars_first_placeholder_left :
  envs (instrumented_image web_addresses web_image)
  = ["DB_HOST=${db}"; "CACHE_HOST=172.17.0.3"].
Proof. reflexivity. Qed.

(** With the database alone, its placeholder is replaced. *)
Example one_sidecar_placeholder_replaced :
  envs (instrumented_image web_addresses
          (plain_image "web" ["DB_HOST=${db}"; "DB_URL=pg://${db}/${db}"]
             [plain_image "db" [] []]))
  = ["DB_HOST=172.17.0.2"; "DB_URL=pg://172.17.0.2/172.17.0.2"].
Proof. reflexivity. Qed.
End SidecarScenario.

(** ** More on the path set and on the reduced archive *)

Section PathSetShape.
Import pathlib tarfile shrink_containers.
Variable tempdir : Path.

Definition absolute (p : string) : Prop := pybytes.startswith p "/" = true.

Lemma str_under_slash_absolute (p other rel : Path) :
  relative_to p other = Ok rel → absolute (str (joinpath slash rel)).
Proof.
  unfold relative_to. intros H.
  destruct (decide (root p = root other)); [|done].
  destruct (strip_prefix _ _) as [rest|]; [|done].
  injection H as <-. unfold absolute, pybytes.startswith.
  change (str (joinpath slash (mkPath Relative rest)))
    with (String "/" (pybytes.join "/" rest)).
  cbn [String.prefix]. destruct (Ascii.ascii_dec "/" "/"); [|done].
  by destruct (pybytes.join "/" rest).
Qed.

Lemma bootstrap_absolute p : p ∈ bootstrap → absolute p.
Proof.
  unfold bootstrap. rewrite !elem_of_cons, elem_of_nil.
  intros [->|[->|[->|[->|[->|[->|[]]]]]]]; reflexivity.
Qed.

Lemma scan_entry_absolute st m st' :
  scan_entry tempdir st m = Ok st' →
  set_Forall absolute (path_set st) → set_Forall absolute (path_set st').
Proof.
  unfold scan_entry. intros H Hall.
  destruct (issym (info m)).
  { repeat bind_ok H. by injection H as <-. }
  destruct (negb (isreg (info m))).
  { by injection H as <-. }
  repeat bind_ok H.
  destruct (negb (pybytes.startswith _ "#!")).
  { by injection H as <-. }
  bind_ok H.
  destruct (negb (pybytes.startswith a1 "/")) eqn:Habs.
  { by injection H as <-. }
  apply negb_false_iff in Habs.
  case_bool_decide.
  - bind_ok H. injection H as <-. simpl.
    apply set_Forall_union; [done|]. by apply set_Forall_singleton.
  - by injection H as <-.
Qed.

Lemma close_path_absolute st path_set byte_p path_set' :
  close_path tempdir st path_set byte_p = Ok path_set' →
  set_Forall absolute path_set → set_Forall absolute path_set'.
Proof.
  unfold close_path. intros H Hall.
  bind_ok H.
  destruct (relative_to _ slash) as [rel|]; [|by injection H as <-].
  destruct (ospath.exists_ _ _); [|by injection H as <-].
  bind_ok H.
  case_bool_decide; [by injection H as <-|].
  destruct (relative_to a0 (symlink_tree tempdir)) as [path|] eqn:Hpath;
    [|by injection H as <-].
  bind_ok H. injection H as <-.
  apply set_Forall_union;
    [|apply set_Forall_singleton; by eapply str_under_slash_absolute].
  match goal with
  | Hadd : match pydict.get ?k ?d with _ => _ end = Ok _ |- _ =>
      destruct (pydict.get k d); [do 3 bind_ok Hadd|]; injection Hadd as <-
  end; [|done].
  apply set_Forall_union; [done|].
  apply set_Forall_singleton. by eapply str_under_slash_absolute.
Qed.

Lemma seed_path_set_absolute logs : set_Forall absolute (seed_path_set logs).
Proof.
  intros p [Hb|[_ Habs]]%elem_of_seed_path_set; [by apply bootstrap_absolute|done].
Qed.
End PathSetShape.

(** X1: Every path of the set the resolution returns starts with a slash. *)
Theorem resolved_paths_absolute (tempdir : pathlib.Path)
    (order : gset string → list string) (host : fs.node) (logs : string)
    (source : list tarfile.member) (S : gset string) (p : string) :
  shrink_containers.resolve_path_set tempdir order host logs source = Ok S →
  p ∈ S → pybytes.startswith p "/" = true.
Proof.
  unfold shrink_containers.resolve_path_set. intros H.
  bind_ok H. revert p. change (set_Forall absolute S).
  assert (set_Forall absolute (shrink_containers.path_set a)) as Hscan.
  { assert (set_Forall absolute
              (shrink_containers.path_set
                 (shrink_containers.mkScan
                    (shrink_containers.seed_path_set logs) [] host)))
      as Hseed by apply seed_path_set_absolute.
    revert E Hseed.
    generalize (shrink_containers.mkScan
                  (shrink_containers.seed_path_set logs) [] host).
    intros st0.
    apply (for_each_preserves
             (λ s1 s2, set_Forall absolute (shrink_containers.path_set s1) →
                       set_Forall absolute (shrink_containers.path_set s2)));
      [done|by auto|].
    intros s m s' _. apply scan_entry_absolute. }
  revert H Hscan.
  apply (for_each_preserves
           (λ s1 s2 : gset string,
              set_Forall absolute s1 → set_Forall absolute s2));
    [done|by auto|].
  intros s q s' _. apply close_path_absolute.
Qed.

Section ClosureShape.
Import pathlib tarfile shrink_containers.
Variable tempdir : Path.

(** What the closure loop returns: the set it started with and, for each
    path it went through, what that path adds on its own. *)
Lemma close_paths_closed_form st todo path_set S :
  for_each (close_path tempdir st) todo path_set = Ok S →
  ∀ p, p ∈ S ↔
       p ∈ path_set
       ∨ ∃ q added, q ∈ todo ∧ close_path tempdir st ∅ q = Ok added ∧ p ∈ added.
Proof.
  revert path_set. induction todo as [|q0 todo IH]; intros path_set H p.
  - injection H as <-. split; [by left|].
    intros [?|(q & added & []%elem_of_nil & _)]. done.
  - simpl in H. rewrite close_path_adds in H.
    bind_ok H. bind_ok E. injection E as <-.
    rewrite (IH _ H p), elem_of_union. split.
    + intros [[?|Hp]|(q & added & Hq & Hrun & Hp)].
      * by left.
      * right. exists q0, a0. split; [left|done].
      * right. exists q, added. split; [by right|done].
    + intros [?|(q & added & [->|Hq]%elem_of_cons & Hrun & Hp)].
      * left. by left.
      * left. right. congruence.
      * right. by exists q, added.
Qed.

(** The interpreters the scan records. *)
Definition declares (m : member) (interp : string) : Prop :=
  isreg (info m) = true
  ∧ pybytes.startswith (pybytes.readline (data m)) "#!" = true
  ∧ (∃ rest, pybytes.split_whitespace
               (pybytes.drop 2 (pybytes.readline (data m))) = interp :: rest)
  ∧ pybytes.startswith interp "/" = true.

Lemma elem_of_dict_set {V} (k k' : string) (v v' : V) d :
  (k, v) ∈ pydict.set k' v' d → (k, v) = (k', v') ∨ (k, v) ∈ d.
Proof.
  induction d as [|[k0 v0] d IH]; simpl.
  - intros [->|[]%elem_of_nil]%elem_of_cons. by left.
  - destruct (String.eqb k' k0).
    + intros [->|?]%elem_of_cons; [by left|]. right. by right.
    + intros [->|Hin]%elem_of_cons; [right; left|].
      destruct (IH Hin) as [?|?]; [by left|]. right. by right.
Qed.

Lemma scan_entry_shebangs st m st' k v :
  scan_entry tempdir st m = Ok st' →
  (k, v) ∈ shebangs st' →
  (k, v) ∈ shebangs st ∨ (k = name (info m) ∧ declares m v).
Proof.
  unfold scan_entry. intros H Hkv.
  destruct (issym (info m)).
  { repeat bind_ok H. injection H as <-. by left. }
  destruct (negb (isreg (info m))) eqn:Hreg.
  { injection H as <-. by left. }
  apply negb_false_iff in Hreg.
  repeat bind_ok H.
  destruct (negb (pybytes.startswith _ "#!")) eqn:Hmark.
  { injection H as <-. by left. }
  apply negb_false_iff in Hmark.
  bind_ok H.
  destruct (pybytes.split_whitespace _) as [|w rest] eqn:Hsplit; [done|].
  injection E1 as ->.
  destruct (negb (pybytes.startswith a1 "/")) eqn:Habs.
  { injection H as <-. by left. }
  apply negb_false_iff in Habs.
  assert ((k, v) ∈ pydict.set (name (info m)) a1 (shebangs st) →
          (k, v) ∈ shebangs st ∨ (k = name (info m) ∧ declares m v)) as Hset.
  { intros [Heq|?]%elem_of_dict_set; [|by left].
    injection Heq as -> ->. right. split; [done|].
    repeat split; try done. by exists rest. }
  case_bool_decide.
  - bind_ok H. injection H as <-. by apply Hset.
  - injection H as <-. by apply Hset.
Qed.

Lemma scan_entry_path_set st m st' p :
  scan_entry tempdir st m = Ok st' →
  p ∈ path_set st' →
  p ∈ path_set st ∨ (declares m p ∧ entry_name (info m) ∈ path_set st).
Proof.
  unfold scan_entry. intros H Hp.
  destruct (issym (info m)).
  { repeat bind_ok H. injection H as <-. by left. }
  destruct (negb (isreg (info m))) eqn:Hreg.
  { injection H as <-. by left. }
  apply negb_false_iff in Hreg.
  repeat bind_ok H.
  destruct (negb (pybytes.startswith _ "#!")) eqn:Hmark.
  { injection H as <-. by left. }
  apply negb_false_iff in Hmark.
  bind_ok H.
  destruct (pybytes.split_whitespace _) as [|w rest] eqn:Hsplit; [done|].
  injection E1 as ->.
  destruct (negb (pybytes.startswith a1 "/")) eqn:Habs.
  { injection H as <-. by left. }
  apply negb_false_iff in Habs.
  case_bool_decide as Hin.
  - bind_ok H. injection H as <-. simpl in Hp.
    apply elem_of_union in Hp as [?|Heq%elem_of_singleton]; [by left|subst p].
    right. split; [|done]. repeat split; try done. by exists rest.
  - injection H as <-. by left.
Qed.
End ClosureShape.

(** X2: The closure is one pass over the set the scan has built: what it adds
    comes from the paths of that set, each taken alone; the paths it adds
    are not resolved in turn. *)
Theorem closure_is_one_pass (tempdir : pathlib.Path)
    (order : gset string → list string) (host : fs.node) (logs : string)
    (source : list tarfile.member) (S : gset string) :
  (∀ S', order S' ≡ₚ elements S') →
  shrink_containers.resolve_path_set tempdir order host logs source = Ok S →
  ∃ st,
    for_each (shrink_containers.scan_entry tempdir) source
      (shrink_containers.mkScan (shrink_containers.seed_path_set logs) [] host)
    = Ok st
    ∧ ∀ p, p ∈ S ↔
           p ∈ shrink_containers.path_set st
           ∨ ∃ q added,
               q ∈ shrink_containers.path_set st
               ∧ shrink_containers.close_path tempdir st ∅ q = Ok added
               ∧ p ∈ added.
Proof.
  intros Horder H. unfold shrink_containers.resolve_path_set in H.
  bind_ok H. exists a. split; [done|]. intros p.
  rewrite (close_paths_closed_form _ _ _ _ _ H p).
  split; (intros [?|(q & added & Hq & Hrest)]; [by left|right]);
    exists q, added; (split; [|done]).
  - rewrite Horder, elem_of_elements in Hq. done.
  - rewrite Horder, elem_of_elements. done.
Qed.

(** X3: Whatever the scan records as an interpreter is the first word after
    [#!] on the first line of a regular file of the archive with that name,
    and starts with a slash. *)
Theorem scanned_shebangs_declared (tempdir : pathlib.Path) (host : fs.node)
    (logs : string) (source : list tarfile.member)
    (st : shrink_containers.scan_state) (k v : string) :
  for_each (shrink_containers.scan_entry tempdir) source
    (shrink_containers.mkScan (shrink_containers.seed_path_set logs) [] host)
  = Ok st →
  (k, v) ∈ shrink_containers.shebangs st →
  ∃ m, m ∈ source ∧ tarfile.name (tarfile.info m) = k ∧ declares m v.
Proof.
  intros H.
  assert (∀ st0,
    for_each (shrink_containers.scan_entry tempdir) source st0 = Ok st →
    (k, v) ∈ shrink_containers.shebangs st →
    (k, v) ∈ shrink_containers.shebangs st0
    ∨ ∃ m, m ∈ source ∧ tarfile.name (tarfile.info m) = k ∧ declares m v)
    as Hinv.
  { clear H. induction source as [|m0 source' IH]; intros st0 Hrun Hkv.
    - injection Hrun as <-. by left.
    - simpl in Hrun. bind_ok Hrun.
      destruct (IH _ Hrun Hkv) as [Hin|(m & Hm & Hname & Hdecl)].
      + destruct (scan_entry_shebangs _ _ _ _ _ _ E Hin) as [?|[-> Hdecl]];
          [by left|].
        right. exists m0. split; [left|done].
      + right. exists m. split; [by right|done]. }
  intros Hkv. destruct (Hinv _ H Hkv) as [[]%elem_of_nil|?]. done.
Qed.

(** X4: A path is in the set the scan has built only if it is in the seed set
    or is the interpreter declared by a regular file of the archive whose
    own path is in that set. *)
Theorem scanned_paths_from_scripts (tempdir : pathlib.Path) (host : fs.node)
    (logs : string) (source : list tarfile.member)
    (st : shrink_containers.scan_state) (p : string) :
  for_each (shrink_containers.scan_entry tempdir) source
    (shrink_containers.mkScan (shrink_containers.seed_path_set logs) [] host)
  = Ok st →
  p ∈ shrink_containers.path_set st →
  p ∈ shrink_containers.seed_path_set logs
  ∨ ∃ m, m ∈ source ∧ declares m p
         ∧ shrink_containers.entry_name (tarfile.info m)
             ∈ shrink_containers.path_set st.
Proof.
  intros H.
  assert (∀ st0,
    for_each (shrink_containers.scan_entry tempdir) source st0 = Ok st →
    p ∈ shrink_containers.path_set st →
    p ∈ shrink_containers.path_set st0
    ∨ ∃ m, m ∈ source ∧ declares m p
           ∧ shrink_containers.entry_name (tarfile.info m)
               ∈ shrink_containers.path_set st) as Hinv.
  { clear H. induction source as [|m0 source' IH]; intros st0 Hrun Hp.
    - injection Hrun as <-. by left.
    - simpl in Hrun. bind_ok Hrun.
      destruct (IH _ Hrun Hp) as [Hin|(m & Hm & Hdecl & Hpath)].
      + destruct (scan_entry_path_set _ _ _ _ _ E Hin) as [?|[Hdecl Hpath]];
          [by left|].
        right. exists m0. split; [left|]. split; [done|].
        apply scan_archive_grows in Hrun. apply scan_entry_grows in E.
        apply Hrun, E, Hpath.
      + right. exists m. split; [by right|done]. }
  intros Hp. destruct (Hinv _ H Hp) as [?|?]; [by left|by right].
Qed.

(** X5: [shrink_image] keeps what the run has used: when it returns, every
    regular file of the archive whose path is a bootstrap path or a record of
    the log is in the reduced archive, with its header and its bytes. *)
Theorem shrink_image_keeps_seed_files (tempdir : pathlib.Path)
    (order : gset string → list string) (host : fs.node) (logs : string)
    (source reduced : list tarfile.member) (m : tarfile.member) :
  shrink_containers.shrink_image tempdir order host logs source = Ok reduced →
  m ∈ source →
  tarfile.isreg (tarfile.info m) = true →
  shrink_containers.entry_name (tarfile.info m)
    ∈ shrink_containers.seed_path_set logs →
  m ∈ reduced.
Proof.
  unfold shrink_containers.shrink_image. intros H Hm Hreg Hseed.
  bind_ok H. injection H as <-.
  apply resolve_path_set_scan in E as (st & Hscan & Hsub).
  apply scan_archive_grows in Hscan. simpl in Hscan.
  rewrite write_reduced_omap. apply list_elem_of_omap. exists m.
  split; [done|]. unfold written.
  rewrite (isreg_not_dir_sym _ Hreg), Hreg. cbn [orb].
  rewrite bool_decide_eq_true_2 by (apply Hsub, Hscan, Hseed).
  by destruct m.
Qed.

(** ** Where the links of the set lead (lines 430-454) *)

Section LinkTargets.
Import pathlib tarfile shrink_containers.
Variable tempdir : Path.

(** A round of the closure on a path whose shadow resolves to another
    place of the shadow tree adds that place. *)
Lemma close_path_target st path_set byte_p s rel new_p path path_set' :
  pybytes.decode byte_p = Ok s →
  relative_to (parse s) slash = Ok rel →
  ospath.exists_ (tree st) (joinpath (symlink_tree tempdir) rel) = true →
  ospath.resolve (tree st) (joinpath (symlink_tree tempdir) rel) = Ok new_p →
  new_p ≠ joinpath (symlink_tree tempdir) rel →
  relative_to new_p (symlink_tree tempdir) = Ok path →
  close_path tempdir st path_set byte_p = Ok path_set' →
  str (joinpath slash path) ∈ path_set'.
Proof.
  intros Hs Hrel Hex Hres Hne Hpath H. revert H. unfold close_path. intros H.
  rewrite Hs in H. cbn [mbind result_bind] in H.
  rewrite Hrel, Hex, Hres in H. cbn [mbind result_bind] in H.
  rewrite bool_decide_eq_false_2 in H by exact Hne.
  rewrite Hpath in H. bind_ok H. injection H as <-.
  apply elem_of_union_r, elem_of_singleton. done.
Qed.
End LinkTargets.

(** X25: A path of the set the scan has built whose shadow exists and resolves
    to another place inside the shadow tree has that place, taken from
    the root, in every set the resolution returns. *)
Theorem link_target_added (tempdir : pathlib.Path)
    (order : gset string → list string) (host : fs.node) (logs : string)
    (source : list tarfile.member) (st : shrink_containers.scan_state)
    (S : gset string) (byte_p s : string) (rel new_p path : pathlib.Path) :
  (∀ S', order S' ≡ₚ elements S') →
  for_each (shrink_containers.scan_entry tempdir) source
    (shrink_containers.mkScan (shrink_containers.seed_path_set logs) [] host)
  = Ok st →
  shrink_containers.resolve_path_set tempdir order host logs source = Ok S →
  byte_p ∈ shrink_containers.path_set st →
  pybytes.decode byte_p = Ok s →
  pathlib.relative_to (pathlib.parse s) shrink_containers.slash = Ok rel →
  ospath.exists_ (shrink_containers.tree st)
    (pathlib.joinpath (shrink_containers.symlink_tree tempdir) rel) = true →
  ospath.resolve (shrink_containers.tree st)
    (pathlib.joinpath (shrink_containers.symlink_tree tempdir) rel)
  = Ok new_p →
  new_p ≠ pathlib.joinpath (shrink_containers.symlink_tree tempdir) rel →
  pathlib.relative_to new_p (shrink_containers.symlink_tree tempdir)
  = Ok path →
  pathlib.str (pathlib.joinpath shrink_containers.slash path) ∈ S.
Proof.
  intros Horder Hscan HS Hin Hs Hrel Hex Hres Hne Hpath.
  unfold shrink_containers.resolve_path_set in HS.
  rewrite Hscan in HS. cbn [mbind result_bind] in HS.
  assert (byte_p ∈ order (shrink_containers.path_set st)) as Hq.
  { by rewrite Horder, elem_of_elements. }
  apply list_elem_of_split in Hq as (l1 & l2 & Heq).
  rewrite Heq, for_each_app in HS. bind_ok HS.
  simpl in HS. bind_ok HS.
  apply close_paths_grows in HS. apply HS.
  by eapply close_path_target.
Qed.

Section RewriterShape.
Import pathlib tarfile shrink_containers.

Lemma written_info path_set m m' : written path_set m = Some m' → info m' = info m.
Proof.
  unfold written. destruct (_ || _); [|done]. by intros [= <-].
Qed.

Lemma written_again path_set m m' :
  written path_set m = Some m' → written path_set m' = Some m'.
Proof.
  unfold written. destruct (_ || _) eqn:Hkeep; [|done].
  intros [= <-]. cbn [info data]. rewrite Hkeep.
  by destruct (isreg (info m)).
Qed.

Lemma written_mono (path_set1 path_set2 : gset string) m m' :
  path_set1 ⊆ path_set2 →
  written path_set1 m = Some m' → written path_set2 m = Some m'.
Proof.
  unfold written. intros Hsub.
  destruct (isdir (info m) || issym (info m)); [done|]. cbn [orb].
  case_bool_decide as Hin; [|done].
  by rewrite bool_decide_eq_true_2 by (by apply Hsub).
Qed.
End RewriterShape.

(** X6: The reduced archive is drawn from the source: its headers are headers
    of the source in the order of the source, a regular file in it is a
    member of the source with the same bytes, and any other member in it
    has no data. *)
Theorem reduced_archive_from_source (path_set : gset string)
    (source : list tarfile.member) :
  (tarfile.info <$> shrink_containers.write_reduced path_set source)
    `sublist_of` (tarfile.info <$> source)
  ∧ ∀ m', m' ∈ shrink_containers.write_reduced path_set source →
          if tarfile.isreg (tarfile.info m') then m' ∈ source
          else tarfile.data m' = EmptyString.
Proof.
  rewrite write_reduced_omap. split.
  - induction source as [|m source IH]; [done|].
    rewrite omap_written_cons, fmap_cons.
    destruct (written path_set m) as [m'|] eqn:Hw.
    + rewrite fmap_cons, (written_info _ _ _ Hw). by apply sublist_skip.
    + by apply sublist_cons.
  - intros m' (m & Hm & Hw)%list_elem_of_omap.
    unfold written in Hw. destruct (_ || _); [|done].
    injection Hw as <-. cbn [tarfile.info tarfile.data].
    destruct (tarfile.isreg (tarfile.info m)); [by destruct m|done].
Qed.

(** X7: Reducing a reduced archive again with the same path set changes
    nothing. *)
Theorem write_reduced_idempotent (path_set : gset string)
    (source : list tarfile.member) :
  shrink_containers.write_reduced path_set
    (shrink_containers.write_reduced path_set source)
  = shrink_containers.write_reduced path_set source.
Proof.
  rewrite !write_reduced_omap.
  induction source as [|m source IH]; [done|].
  rewrite omap_written_cons.
  destruct (written path_set m) as [m'|] eqn:Hw; [|done].
  rewrite omap_written_cons, (written_again _ _ _ Hw). by rewrite IH.
Qed.

(** X8: A larger path set never drops a member a smaller one keeps. *)
Theorem write_reduced_monotone (path_set1 path_set2 : gset string)
    (source : list tarfile.member) :
  path_set1 ⊆ path_set2 →
  shrink_containers.write_reduced path_set1 source
    `sublist_of` shrink_containers.write_reduced path_set2 source.
Proof.
  intros Hsub. rewrite !write_reduced_omap.
  induction source as [|m source IH]; [done|].
  rewrite !omap_written_cons.
  destruct (written path_set1 m) as [m1|] eqn:Hw1.
  - rewrite (written_mono _ _ _ _ Hsub Hw1). by apply sublist_skip.
  - destruct (written path_set2 m); [by apply sublist_cons|done].
Qed.

(** ** More on the main loop (lines 520-531) *)

Section MainLoopShape.
Import images pipeline.
Variable world : Type.
Variable analyze_image : world → Image → world * result (Z * Z).

(** What the loop makes of one image: it leaves a bypassed image as it is
    and sets the two sizes of an analysed one. *)
Definition processed (image image' : Image) : Prop :=
  (bypassed image = true ∧ image' = image)
  ∨ (bypassed image = false
     ∧ ∃ w w' old new, analyze_image w image = (w', Ok (old, new))
                       ∧ image' = set_sizes image old new).

Lemma main_loop_returns w seen todo evs final :
  main_loop world analyze_image w seen todo = (evs, Ok final) →
  ∃ todo', final = seen ++ todo' ∧ Forall2 processed todo todo'.
Proof.
  revert w seen evs. induction todo as [|i todo IH]; intros w seen evs; simpl.
  - intros [= <- <-]. exists []. by rewrite app_nil_r.
  - destruct (bypassed i) eqn:Hi.
    + destruct (main_loop world analyze_image w (seen ++ [i]) todo)
        as [evs1 r1] eqn:Hrun.
      intros [= <- ->]. apply IH in Hrun as (todo' & -> & Hall).
      exists (i :: todo'). rewrite <- app_assoc. split; [done|].
      constructor; [|done]. by left.
    + destruct (analyze_image w i) as [w' [[old new]|e]] eqn:Ha; [|done].
      destruct (main_loop world analyze_image w'
                  (seen ++ [set_sizes i old new]) todo) as [evs1 r1] eqn:Hrun.
      intros [= <- ->]. apply IH in Hrun as (todo' & -> & Hall).
      exists (set_sizes i old new :: todo'). rewrite <- app_assoc.
      split; [done|]. constructor; [|done].
      right. split; [done|]. by exists w, w', old, new.
Qed.

Lemma main_loop_all_bypassed w seen todo :
  Forall (λ i, bypassed i = true) todo →
  main_loop world analyze_image w seen todo = (Skip <$> todo, Ok (seen ++ todo)).
Proof.
  revert seen. induction todo as [|i todo IH]; intros seen Hall; simpl.
  - by rewrite app_nil_r.
  - apply Forall_cons in Hall as [Hi Hall]. rewrite Hi, (IH _ Hall).
    by rewrite <- app_assoc.
Qed.

Lemma main_loop_writes_whole_list w seen todo l :
  WriteImages l ∈ (main_loop world analyze_image w seen todo).1 →
  name <$> l = name <$> (seen ++ todo).
Proof.
  revert w seen. induction todo as [|i todo IH]; intros w seen; simpl.
  - intros []%elem_of_nil.
  - destruct (bypassed i).
    + specialize (IH w (seen ++ [i])).
      destruct (main_loop world analyze_image w (seen ++ [i]) todo) as [evs r].
      simpl in *. intros [?|Hin]%elem_of_cons; [done|].
      rewrite (IH Hin). by rewrite <- app_assoc.
    + destruct (analyze_image w i) as [w' [[old new]|e]].
      * specialize (IH w' (seen ++ [set_sizes i old new])).
        destruct (main_loop world analyze_image w'
                    (seen ++ [set_sizes i old new]) todo) as [evs r].
        simpl in *. intros [?|[Heq|Hin]%elem_of_cons]%elem_of_cons; [done| |].
        -- injection Heq as ->. by rewrite !fmap_app, !fmap_cons.
        -- rewrite (IH Hin). by rewrite <- app_assoc, !fmap_app, !fmap_cons.
      * simpl. intros [?|[]%elem_of_nil]%elem_of_cons. done.
Qed.

Lemma main_loop_first_failure w seen pre image post w' e :
  Forall (λ i, bypassed i = true) pre →
  bypassed image = false →
  analyze_image w image = (w', Raise e) →
  main_loop world analyze_image w seen (pre ++ image :: post)
  = ((Skip <$> pre) ++ [Analyze image], Raise e).
Proof.
  intros Hpre Himage Hfail. revert seen.
  induction Hpre as [|i pre Hi _ IH]; intros seen; simpl.
  - by rewrite Himage, Hfail.
  - by rewrite Hi, IH.
Qed.
End MainLoopShape.

(** X11: A run that returns leaves the run list as it was but for the sizes: in
    the order of the list, a bypassed image is unchanged and an analysed one
    has the two sizes its analysis gave. *)
Theorem main_sets_only_sizes (world : Type)
    (analyze_image : world → images.Image → world * result (Z * Z))
    (w : world) (run_list final : list images.Image)
    (evs : list pipeline.event) :
  pipeline.main world analyze_image w run_list = (evs, Ok final) →
  Forall2 (processed world analyze_image) run_list final.
Proof.
  intros H. apply main_loop_returns in H as (todo' & -> & Hall). done.
Qed.

(** X12: Resuming: when the analysis never reports a size of zero, a second run
    on the list a first run has returned analyses nothing and returns the
    list as it is. *)
Theorem main_rerun_skips_all (world : Type)
    (analyze_image : world → images.Image → world * result (Z * Z))
    (w w2 : world) (run_list final : list images.Image)
    (evs : list pipeline.event) :
  (∀ w image w' old new,
     analyze_image w image = (w', Ok (old, new)) → old ≠ 0%Z ∧ new ≠ 0%Z) →
  pipeline.main world analyze_image w run_list = (evs, Ok final) →
  pipeline.main world analyze_image w2 final
  = (pipeline.Skip <$> final, Ok final).
Proof.
  intros Hsizes H. apply main_loop_returns in H as (todo' & -> & Hall).
  unfold pipeline.main. rewrite main_loop_all_bypassed; [done|].
  simpl. clear -Hall Hsizes.
  induction Hall as [|i i' l l' Hi _ IH]; constructor; [|done].
  destruct Hi as [[Hb ->]|(_ & w & w' & old & new & Ha & ->)]; [done|].
  destruct (Hsizes _ _ _ _ _ Ha) as [Hold Hnew].
  unfold pipeline.bypassed, pipeline.set_sizes, pipeline.truthy. simpl.
  apply Z.eqb_neq in Hold, Hnew. by rewrite Hold, Hnew.
Qed.

(** X13: Each time the loop writes the descriptors it writes the whole run list:
    the names written are the names of the run list, in its order. *)
Theorem main_writes_whole_list (world : Type)
    (analyze_image : world → images.Image → world * result (Z * Z))
    (w : world) (run_list l : list images.Image) :
  pipeline.WriteImages l ∈ (pipeline.main world analyze_image w run_list).1 →
  images.name <$> l = images.name <$> run_list.
Proof. intros H. by apply main_loop_writes_whole_list in H. Qed.

(** X14: When the analysis of the first image that is not bypassed raises, the
    run raises that error: the loop has passed over the images before it,
    and it analyses and writes nothing after it. *)
Theorem main_stops_at_failure (world : Type)
    (analyze_image : world → images.Image → world * result (Z * Z))
    (w w' : world) (pre post : list images.Image) (image : images.Image)
    (e : exn) :
  Forall (λ i, pipeline.bypassed i = true) pre →
  pipeline.bypassed image = false →
  analyze_image w image = (w', Raise e) →
  pipeline.main world analyze_image w (pre ++ image :: post)
  = ((pipeline.Skip <$> pre) ++ [pipeline.Analyze image], Raise e).
Proof. apply main_loop_first_failure. Qed.

(** ** More on the instrumented run (lines 274-302) *)

Section SubstituteShape.
Import images pipeline.
Variable ip_address : Image → string.

(** What the loop over the sidecars leaves in an entry. *)
Definition substituted (sidecars : list (string * string)) (env : string)
    : string :=
  match last sidecars with
  | Some n_sidecar =>
      pybytes.replace env ("${" +:+ n_sidecar.1 +:+ "}") n_sidecar.2
  | None => env
  end.

Lemma substitute_from_map sidecars before todo :
  substitute_from sidecars (before ++ todo) (length before) todo
  = before ++ (substituted sidecars <$> todo).
Proof.
  revert before. induction todo as [|env todo IH]; intros before; [done|].
  cbn [substitute_from]. rewrite substitute_entry_last.
  assert (match last sidecars with
          | Some n_sidecar =>
              <[length before :=
                  pybytes.replace env ("${" +:+ n_sidecar.1 +:+ "}")
                                  n_sidecar.2]> (before ++ env :: todo)
          | None => before ++ env :: todo
          end = (before ++ [substituted sidecars env]) ++ todo) as ->.
  { unfold substituted. destruct (last sidecars) as [n_sidecar|].
    - rewrite insert_app_r_alt by lia. rewrite Nat.sub_diag.
      by rewrite <- app_assoc.
    - by rewrite <- app_assoc. }
  specialize (IH (before ++ [substituted sidecars env])).
  rewrite length_app in IH. simpl in IH. rewrite Nat.add_1_r in IH.
  rewrite IH, <- app_assoc. done.
Qed.
End SubstituteShape.

(** X15: The image the parent container is started from differs from the image
    given in its environment alone, entry by entry: without sidecars the
    environment is unchanged, and with sidecars each entry has the
    placeholder of the sidecar started last replaced by its address. *)
Theorem instrumented_image_envs (ip_address : images.Image → string)
    (image : images.Image) :
  pipeline.instrumented_image ip_address image
  = pipeline.set_envs image
      (substituted (pipeline.started_sidecars ip_address image)
         <$> images.envs image).
Proof.
  unfold pipeline.instrumented_image. f_equal.
  apply (substitute_from_map _ [] (images.envs image)).
Qed.

(** X16: With one sidecar, every entry of the environment has each placeholder
    of that sidecar replaced by its address. *)
Theorem instrumented_image_one_sidecar (ip_address : images.Image → string)
    (image sidecar : images.Image) :
  images.sidecars image = [sidecar] →
  images.envs (pipeline.instrumented_image ip_address image)
  = (λ env, pybytes.replace env ("${" +:+ images.name sidecar +:+ "}")
                            (ip_address sidecar))
      <$> images.envs image.
Proof.
  intros Hone. unfold pipeline.instrumented_image, pipeline.started_sidecars.
  rewrite Hone. cbn [foldl pydict.set pipeline.set_envs images.envs].
  exact (substitute_from_map
           [(images.name sidecar, ip_address sidecar)] [] (images.envs image)).
Qed.

(** ** More on the descriptors ([images.py], [export_tsv.py]) *)

Section SortFacts.
Import images_io.
Context {A : Type}.
Implicit Types (key : A → string) (l : list A).

Lemma insert_by_permutation key x l : insert_by key x l ≡ₚ x :: l.
Proof.
  induction l as [|y l IH]; simpl; [done|].
  destruct (String.leb (key x) (key y)); [done|].
  rewrite IH. apply Permutation_swap.
Qed.

Lemma sort_by_permutation key l : sort_by key l ≡ₚ l.
Proof.
  induction l as [|x l IH]; simpl; [done|].
  by rewrite insert_by_permutation, IH.
Qed.

Lemma map_insert_by {B} (key : A → string) (key' : B → string) (g : A → B) x l :
  (∀ y, key' (g y) = key y) →
  map g (insert_by key x l) = insert_by key' (g x) (map g l).
Proof.
  intros Hkey. induction l as [|y l IH]; simpl; [done|].
  rewrite !Hkey. destruct (String.leb (key x) (key y)); simpl; [done|].
  by rewrite IH.
Qed.

Lemma map_sort_by {B} (key : A → string) (key' : B → string) (g : A → B) l :
  (∀ y, key' (g y) = key y) →
  map g (sort_by key l) = sort_by key' (map g l).
Proof.
  intros Hkey. induction l as [|x l IH]; simpl; [done|].
  by rewrite (map_insert_by key key'), IH.
Qed.
End SortFacts.

Section DictLookup.
Context {V : Type}.
Implicit Types (d : list (string * V)) (k : string) (v : V).

Lemma dict_get_elem_of k v d :
  NoDup (pydict.keys d) → pydict.get k d = Some v ↔ (k, v) ∈ d.
Proof.
  induction d as [|[k0 v0] d IH]; simpl.
  - intros _. split; [done|intros []%elem_of_nil].
  - intros [Hnotin Hnd]%NoDup_cons.
    destruct (String.eqb_spec k k0) as [->|Hne].
    + split; [intros [= ->]; left|].
      intros [[= ->]|Hin]%elem_of_cons; [done|].
      exfalso. apply Hnotin. unfold pydict.keys.
      apply list_elem_of_fmap. by exists (k0, v).
    + rewrite (IH Hnd). split; [by right|].
      intros [[= ? ?]|?]%elem_of_cons; [done|done].
Qed.

Lemma dict_get_permutation k d d' :
  d ≡ₚ d' → NoDup (pydict.keys d) → pydict.get k d' = pydict.get k d.
Proof.
  intros Hperm Hnd.
  assert (NoDup (pydict.keys d')) as Hnd'.
  { unfold pydict.keys in *. by rewrite <- Hperm. }
  destruct (pydict.get k d) as [v|] eqn:Hget.
  - apply dict_get_elem_of; [done|]. rewrite <- Hperm.
    by apply dict_get_elem_of.
  - destruct (pydict.get k d') as [v'|] eqn:Hget'; [|done].
    apply dict_get_elem_of in Hget'; [|done]. rewrite <- Hperm in Hget'.
    apply dict_get_elem_of in Hget'; [|done]. congruence.
Qed.

Lemma dict_get_sorted k d :
  NoDup (pydict.keys d) →
  pydict.get k (images_io.sort_by fst d) = pydict.get k d.
Proof.
  intros Hnd. apply dict_get_permutation; [|done].
  symmetry. apply sort_by_permutation.
Qed.
End DictLookup.

Lemma dict_get_map_values {V W} (f : V → W) k (d : list (string * V)) :
  pydict.get k (map (fun kv => let '(k, v) := kv in (k, f v)) d)
  = f <$> pydict.get k d.
Proof.
  induction d as [|[k0 v0] d IH]; simpl; [done|].
  by destruct (String.eqb k k0).
Qed.

Lemma dict_keys_map_values {V W} (f : V → W) (d : list (string * V)) :
  pydict.keys (map (fun kv => let '(k, v) := kv in (k, f v)) d) = pydict.keys d.
Proof.
  unfold pydict.keys. rewrite map_map. apply map_ext. by intros [].
Qed.

Section DescriptorFile.
Import images images_io.

Lemma mapM_map_Forall {A B C} (f : A → B) (g : B → option C) (h : A → C)
    (l : list A) :
  Forall (λ x, g (f x) = Some (h x)) l → mapM g (map f l) = Some (map h l).
Proof.
  induction 1 as [|x l Hx _ IH]; [done|].
  simpl. rewrite Hx. simpl. by rewrite IH.
Qed.

Lemma map_dump_load_fixed {A} (f : A → json) (l : list A) :
  (∀ x, dump_load (f x) = f x) → map dump_load (map f l) = map f l.
Proof. intros Hf. rewrite map_map. apply map_ext. done. Qed.

Lemma reread_name i : name (reread i) = name i.
Proof. by destruct i. Qed.

(** Reading the items of a sorted mapping of descriptors. *)
Lemma read_sorted_items (l : list Image) :
  NoDup (name <$> l) →
  Forall (λ i, from_json (name i) (dump_load (as_json i)) = Some (reread i)) l →
  mapM (λ nv, from_json nv.1 nv.2)
    (sort_by fst
       (map (λ kv, let '(k, v) := kv in (k, dump_load v))
          (pydict.of_pairs (map (λ i, (name i, as_json i)) l))))
  = Some (sort_by name (map reread l)).
Proof.
  intros Hnd Hall.
  rewrite dict_of_pairs_nodup by (by rewrite sidecar_pairs_keys).
  rewrite map_map.
  rewrite <- (map_sort_by name fst (λ i, (name i, dump_load (as_json i))))
    by done.
  rewrite <- (map_sort_by name name reread) by apply reread_name.
  apply (mapM_map_Forall (λ i, (name i, dump_load (as_json i)))
           (λ nv, from_json nv.1 nv.2) reread).
  by rewrite sort_by_permutation.
Qed.

Lemma from_json_dump_load (i : Image) :
  unique_sidecar_names i = true →
  from_json (name i) (dump_load (as_json i)) = Some (reread i).
Proof.
  induction i as [i IH] using Image_nested_ind.
  intros Hu.
  destruct i as [nm rd tps dc os ns es ms sk scs].
  simpl in Hu, IH. apply andb_prop in Hu as [Hnd Hus].
  apply bool_decide_eq_true in Hnd.
  assert (Forall (λ i, from_json (name i) (dump_load (as_json i))
                       = Some (reread i)) scs) as Hall.
  { apply Forall_forall. intros sc Hsc.
    rewrite Forall_forall in IH. apply (IH sc Hsc).
    rewrite forallb_forall in Hus. apply Hus. by apply list_elem_of_In. }
  pose proof (read_sorted_items scs Hnd Hall) as Hsc.
  cbn [as_json name repo_digest test_ports docker_commands old_size new_size
       envs mounts skip sidecars].
  destruct sk, os as [o|], ns as [n|];
    cbn [pydict.set String.eqb Ascii.eqb Bool.eqb];
    cbn [dump_load]; rewrite from_json_dict;
    unfold from_json_fields, find_sidecars;
    rewrite !dict_get_sorted
      by (rewrite dict_keys_map_values;
          apply (bool_decide_unpack _); vm_compute; exact I);
    rewrite !dict_get_map_values;
    cbn [pydict.get String.eqb Ascii.eqb Bool.eqb fmap option_fmap option_map
         dump_load];
    unfold sidecars_of; rewrite Hsc;
    cbn [as_optstr as_optint as_strlist as_list_or_empty as_bool_or
         mbind option_bind];
    rewrite !map_dump_load_fixed by (try (intros [? []]); done);
    rewrite mapM_as_str;
    rewrite (mapM_map_inverse _ mount_of_json) by (by intros []);
    rewrite (mapM_map_inverse _ port_of_json) by (by intros [? []]);
    by destruct rd.
Qed.
End DescriptorFile.

(** X18: A write of the descriptor file followed by a read: when no two images
    and no two sidecars of one parent share a name, the images come back
    in the order of their names, each without its [docker_commands] and
    with its sidecars in the order of their names. *)
Theorem write_read_images (run_list : list images.Image) :
  NoDup (images.name <$> run_list) →
  Forall (λ i, images.unique_sidecar_names i = true) run_list →
  images_io.read_images (images_io.dump_load (images_io.write_images run_list))
  = Some (images_io.sort_by images.name (images_io.reread <$> run_list)).
Proof.
  intros Hnd Hall. unfold images_io.write_images.
  cbn [images_io.dump_load images_io.read_images].
  apply read_sorted_items; [done|].
  eapply Forall_impl; [exact Hall|]. intros i. apply from_json_dump_load.
Qed.

Section FromJsonDefaults.
Import images.

(** The keys [from_json] reads. *)
Definition known_keys : list string :=
  ["sidecars"; "repo_digest"; "docker_commands"; "old_size"; "new_size";
   "envs"; "mounts"; "test_ports"; "skip"].

Lemma dict_get_absent {V} k (d : list (string * V)) :
  k ∉ pydict.keys d → pydict.get k d = None.
Proof.
  induction d as [|[k0 v0] d IH]; simpl; [done|].
  intros Hk. destruct (String.eqb_spec k k0) as [->|Hne].
  - exfalso. apply Hk. left.
  - apply IH. intros Hin. apply Hk. by right.
Qed.
End FromJsonDefaults.

(** X19: A descriptor without any of the keys [from_json] reads, whatever other
    keys it has, is read as the image with that name and every other field
    at its default. *)
Theorem from_json_defaults (name : string) (d : list (string * images.json)) :
  (∀ k, k ∈ known_keys → k ∉ pydict.keys d) →
  images.from_json name (images.JDict d)
  = Some {| images.name := name; images.repo_digest := None;
            images.test_ports := []; images.docker_commands := [];
            images.old_size := None; images.new_size := None;
            images.envs := []; images.mounts := []; images.skip := false;
            images.sidecars := [] |}.
Proof.
  intros Hkeys. rewrite from_json_dict.
  unfold from_json_fields, find_sidecars.
  rewrite !dict_get_absent by (apply Hkeys; by_compute).
  reflexivity.
Qed.

Section PinLoop.
Import images images_io.
Variable world : Type.
Variable pull_digest : world → string → world * result string.

(** What the loop makes of one image: it leaves an image with a digest as
    it is and gives the others the digest [docker] reports. *)
Definition pinned (img img' : Image) : Prop :=
  (has_digest img = true ∧ img' = img)
  ∨ (has_digest img = false
     ∧ ∃ w w' digest, pull_digest w (name img) = (w', Ok digest)
                      ∧ img' = set_digest img digest).

Lemma pin_loop_returns w seen todo evs final :
  pin_loop world pull_digest w seen todo = (evs, Ok final) →
  ∃ todo', final = seen ++ todo' ∧ Forall2 pinned todo todo'.
Proof.
  revert w seen evs. induction todo as [|i todo IH]; intros w seen evs; simpl.
  - intros [= <- <-]. exists []. by rewrite app_nil_r.
  - destruct (has_digest i) eqn:Hi.
    + intros Hrun. apply IH in Hrun as (todo' & -> & Hall).
      exists (i :: todo'). rewrite <- app_assoc. split; [done|].
      constructor; [|done]. by left.
    + destruct (pull_digest w (name i)) as [w' [digest|e]] eqn:Hp; [|done].
      destruct (pin_loop world pull_digest w' (seen ++ [set_digest i digest])
                  todo) as [evs1 r1] eqn:Hrun.
      intros [= <- ->]. apply IH in Hrun as (todo' & -> & Hall).
      exists (set_digest i digest :: todo'). rewrite <- app_assoc.
      split; [done|]. constructor; [|done].
      right. split; [done|]. by exists w, w', digest.
Qed.

Lemma pin_loop_pulls w seen todo n :
  Pull n ∈ (pin_loop world pull_digest w seen todo).1 →
  ∃ img, img ∈ todo ∧ name img = n ∧ has_digest img = false.
Proof.
  revert w seen. induction todo as [|i todo IH]; intros w seen; simpl.
  - intros []%elem_of_nil.
  - destruct (has_digest i) eqn:Hi.
    + intros (img & ? & ? & ?)%IH. exists img. split; [by right|done].
    + destruct (pull_digest w (name i)) as [w' [digest|e]].
      * specialize (IH w' (seen ++ [set_digest i digest])).
        destruct (pin_loop world pull_digest w'
                    (seen ++ [set_digest i digest]) todo) as [evs r].
        simpl in *. intros [[= ->]|[?|Hin]%elem_of_cons]%elem_of_cons.
        -- exists i. split; [left|done].
        -- done.
        -- destruct (IH Hin) as (img & ? & ? & ?).
           exists img. split; [by right|done].
      * simpl. intros [[= ->]|[]%elem_of_nil]%elem_of_cons.
        exists i. split; [left|done].
Qed.
End PinLoop.

(** X20: [images.main]: a run that returns has given a digest to every image
    that had none, and has left the others, and every other field, as they
    were. *)
Theorem pin_main_sets_missing_digests (world : Type)
    (pull_digest : world → string → world * result string)
    (w : world) (run_list final : list images.Image)
    (evs : list images_io.pin_event) :
  images_io.main world pull_digest w run_list = (evs, Ok final) →
  Forall2 (pinned world pull_digest) run_list final.
Proof.
  intros H. apply pin_loop_returns in H as (todo' & -> & Hall). done.
Qed.

(** X21: [images.main] pulls only names of images that have no digest yet. *)
Theorem pin_main_pulls_unpinned (world : Type)
    (pull_digest : world → string → world * result string)
    (w : world) (run_list : list images.Image) (n : string) :
  images_io.Pull n ∈ (images_io.main world pull_digest w run_list).1 →
  ∃ img, img ∈ run_list ∧ images.name img = n
         ∧ images_io.has_digest img = false.
Proof. apply pin_loop_pulls. Qed.

Lemma elem_of_export_rows (run_list : list images.Image)
    (n : string) (old new : Z) :
  (n, old, new) ∈ images_io.export_rows run_list ↔
  ∃ i, i ∈ run_list ∧ images.name i = n
       ∧ images.old_size i = Some old ∧ images.new_size i = Some new
       ∧ old ≠ 0%Z ∧ new ≠ 0%Z.
Proof.
  unfold images_io.export_rows. rewrite list_elem_of_In, in_flat_map.
  split.
  - intros (i & Hi%list_elem_of_In & Hrow). exists i. split; [done|].
    destruct (images.old_size i) as [o|], (images.new_size i) as [s|];
      try done.
    destruct (o =? 0)%Z eqn:Ho, (s =? 0)%Z eqn:Hs; simpl in Hrow; try done.
    destruct Hrow as [[= <- <- <-]|[]].
    apply Z.eqb_neq in Ho, Hs. done.
  - intros (i & Hi & <- & Ho & Hs & Hold & Hnew). exists i.
    split; [by apply list_elem_of_In|].
    rewrite Ho, Hs. apply Z.eqb_neq in Hold, Hnew. rewrite Hold, Hnew.
    by left.
Qed.

(** X22: [export_tsv.py]: the table has a row for an image exactly when its two
    sizes are set and not zero, and the row holds its name and the sizes. *)
Theorem export_rows_spec (run_list : list images.Image)
    (n : string) (old new : Z) :
  (n, old, new) ∈ images_io.export_rows run_list ↔
  ∃ i, i ∈ run_list ∧ images.name i = n
       ∧ images.old_size i = Some old ∧ images.new_size i = Some new
       ∧ old ≠ 0%Z ∧ new ≠ 0%Z.
Proof. apply elem_of_export_rows. Qed.

(** X23: After a run of the pipeline that returns, when the analysis never
    reports a size of zero, the table has a row for every image of the
    returned list whose [skip] is not set. *)
Theorem export_after_main (world : Type)
    (analyze_image : world → images.Image → world * result (Z * Z))
    (w : world) (run_list final : list images.Image)
    (evs : list pipeline.event) (i : images.Image) :
  (∀ w image w' old new,
     analyze_image w image = (w', Ok (old, new)) → old ≠ 0%Z ∧ new ≠ 0%Z) →
  pipeline.main world analyze_image w run_list = (evs, Ok final) →
  i ∈ final → images.skip i = false →
  ∃ old new, (images.name i, old, new) ∈ images_io.export_rows final.
Proof.
  intros Hsizes H Hi Hskip.
  apply main_loop_returns in H as (todo' & -> & Hall). simpl in Hi.
  assert (∃ old new, images.old_size i = Some old ∧ images.new_size i = Some new
                     ∧ old ≠ 0%Z ∧ new ≠ 0%Z) as (old & new & Ho & Hn & ? & ?).
  { clear -Hall Hi Hskip Hsizes.
    induction Hall as [|i0 i0' l l' Hp _ IH]; [by apply elem_of_nil in Hi|].
    apply elem_of_cons in Hi as [Heq|Hi]; [subst i0'|by apply IH].
    destruct Hp as [[Hb Heq]|(_ & w & w' & old & new & Ha & Heq)]; subst i.
    - unfold pipeline.bypassed in Hb. rewrite Hskip, orb_false_r in Hb.
      apply andb_prop in Hb as [Ho Hn]. unfold pipeline.truthy in Ho, Hn.
      destruct (images.old_size i0) as [old|]; [|done].
      destruct (images.new_size i0) as [new|]; [|done].
      apply negb_true_iff, Z.eqb_neq in Ho, Hn. by exists old, new.
    - exists old, new. by destruct (Hsizes _ _ _ _ _ Ha). }
  exists old, new. apply elem_of_export_rows. by exists i.
Qed.

(** ** What makes [shrink_image] raise, and the names of containers *)

Section Raising.
Context {A S : Type}.
Implicit Types (body : S → A → result S) (l : list A).

(** A loop raises as soon as one of its rounds would raise whatever the
    state it starts in. *)
Lemma for_each_raises body l a :
  a ∈ l → (∀ s, ∃ e, body s a = Raise e) →
  ∀ s, ∃ e, for_each body l s = Raise e.
Proof.
  intros Hin Hraise.
  induction l as [|a0 l IH]; [by apply elem_of_nil in Hin|].
  intros s. simpl. apply elem_of_cons in Hin as [->|Hin].
  - destruct (Hraise s) as [e ->]. by exists e.
  - destruct (body s a0) as [s'|e]; [apply (IH Hin)|by exists e].
Qed.
End Raising.

Section ScanRaises.
Import pathlib tarfile shrink_containers.
Variable tempdir : Path.

Lemma scan_entry_bare_shebang st m :
  isreg (info m) = true →
  pybytes.startswith (pybytes.readline (data m)) "#!" = true →
  pybytes.split_whitespace (pybytes.drop 2 (pybytes.readline (data m))) = [] →
  ∃ e, scan_entry tempdir st m = Raise e.
Proof.
  intros Hreg Hmark Hsplit.
  destruct (scan_entry tempdir st m) as [st'|e] eqn:H; [exfalso|by exists e].
  unfold scan_entry in H.
  pose proof (isreg_not_dir_sym _ Hreg) as [_ Hsym]%orb_false_elim.
  rewrite Hsym, Hreg in H. cbn [negb] in H.
  repeat bind_ok H.
  rewrite Hmark in H. cbn [negb] in H.
  bind_ok H. by rewrite Hsplit in E1.
Qed.

Lemma close_path_undecodable st path_set byte_p :
  pybytes.utf8_wf (pybytes.values byte_p) = false →
  close_path tempdir st path_set byte_p = Raise UnicodeDecodeError.
Proof.
  intros Hwf. unfold close_path, pybytes.decode. by rewrite Hwf.
Qed.
End ScanRaises.

(** X9: A regular file whose first line is [#!] with no word after it makes the
    resolution raise: no path set is returned, whatever the log. *)
Theorem bare_shebang_raises (tempdir : pathlib.Path)
    (order : gset string → list string) (host : fs.node) (logs : string)
    (source : list tarfile.member) (m : tarfile.member) :
  m ∈ source →
  tarfile.isreg (tarfile.info m) = true →
  pybytes.startswith (pybytes.readline (tarfile.data m)) "#!" = true →
  pybytes.split_whitespace (pybytes.drop 2 (pybytes.readline (tarfile.data m)))
    = [] →
  ∃ e, shrink_containers.resolve_path_set tempdir order host logs source
       = Raise e.
Proof.
  intros Hm Hreg Hmark Hsplit. unfold shrink_containers.resolve_path_set.
  edestruct (for_each_raises (shrink_containers.scan_entry tempdir) source m Hm)
    as [e ->].
  - intros s. by apply scan_entry_bare_shebang.
  - by exists e.
Qed.

(** X10: A record of the log that starts with a slash and is not well-formed
    UTF-8 makes the resolution raise: no path set is returned. *)
Theorem undecodable_log_record_raises (tempdir : pathlib.Path)
    (order : gset string → list string) (host : fs.node) (logs : string)
    (source : list tarfile.member) (p : string) :
  (∀ S, order S ≡ₚ elements S) →
  p ∈ pybytes.split "000" logs →
  pybytes.startswith p "/" = true →
  pybytes.utf8_wf (pybytes.values p) = false →
  ∃ e, shrink_containers.resolve_path_set tempdir order host logs source
       = Raise e.
Proof.
  intros Horder Hp Habs Hwf. unfold shrink_containers.resolve_path_set.
  destruct (for_each _ source _) as [st|e] eqn:Hscan;
    cbn [mbind result_bind]; [|by exists e].
  apply (for_each_raises _ _ p).
  - rewrite Horder, elem_of_elements.
    apply scan_archive_grows in Hscan. apply Hscan. simpl.
    apply elem_of_seed_path_set. by right.
  - intros s. exists UnicodeDecodeError. by apply close_path_undecodable.
Qed.

(** X24: A script whose path is in the seed set and whose interpreter path
    is not well-formed UTF-8 makes the resolution raise: the message of
    line 422 decodes the interpreter before line 423 adds it, and no path
    set is returned. *)
Theorem undecodable_interpreter_raises (tempdir : pathlib.Path)
    (order : gset string → list string) (host : fs.node) (logs : string)
    (source : list tarfile.member) (m : tarfile.member)
    (interp : string) (rest : list string) :
  m ∈ source →
  tarfile.isreg (tarfile.info m) = true →
  shrink_containers.entry_name (tarfile.info m)
    ∈ shrink_containers.seed_path_set logs →
  pybytes.startswith (pybytes.readline (tarfile.data m)) "#!" = true →
  pybytes.split_whitespace (pybytes.drop 2 (pybytes.readline (tarfile.data m)))
    = interp :: rest →
  pybytes.startswith interp "/" = true →
  pybytes.utf8_wf (pybytes.values interp) = false →
  ∃ e, shrink_containers.resolve_path_set tempdir order host logs source
       = Raise e.
Proof.
  intros Hm Hreg Hseed Hmark Hsplit Habs Hwf.
  unfold shrink_containers.resolve_path_set.
  apply list_elem_of_split in Hm as (l1 & l2 & ->).
  rewrite for_each_app.
  destruct (for_each _ l1 _) as [st1|e] eqn:Hscan; [|by exists e].
  apply scan_archive_grows in Hscan.
  destruct (scan_entry_undecodable tempdir st1 m interp rest) as [e He];
    try done.
  { apply Hscan. done. }
  exists e. cbn [mbind result_bind for_each]. by rewrite He.
Qed.

Section ContainerName.

(** The characters of a string. *)
Fixpoint chars (s : string) : list ascii :=
  match s with
  | EmptyString => []
  | String c s' => c :: chars s'
  end.

Lemma chars_app s1 s2 : chars (s1 +:+ s2) = chars s1 ++ chars s2.
Proof. induction s1 as [|c s1 IH]; simpl; [done|]. by rewrite IH. Qed.

Lemma prefix_empty s : String.prefix EmptyString s = true.
Proof. by destruct s. Qed.

(** Replacing a character: what is left is drawn from the string and from
    the replacement, and the character is gone if the replacement has it
    not. *)
Lemma replace_char_chars (c : ascii) (new s : string) (x : ascii) :
  x ∈ chars (pybytes.replace s (String c EmptyString) new) →
  (x ∈ chars s ∧ x ≠ c) ∨ x ∈ chars new.
Proof.
  unfold pybytes.replace.
  induction s as [|a s IH]; [by intros []%elem_of_nil|].
  cbn [pybytes.replace_from String.prefix String.length Nat.sub].
  destruct (Ascii.ascii_dec c a) as [<-|Hne].
  - rewrite prefix_empty, chars_app, elem_of_app.
    intros [?|Hin]; [by right|].
    destruct (IH Hin) as [[? ?]|?]; [left|by right].
    split; [by right|done].
  - cbn [chars]. intros [->|Hin]%elem_of_cons.
    + left. split; [left|]. by intros ->.
    + destruct (IH Hin) as [[? ?]|?]; [left|by right].
      split; [by right|done].
Qed.
End ContainerName.

(** X17: A container is never named with a colon or a slash in its name. *)
Theorem container_name_clean (name : option string) (image : images.Image) :
  (":"%char ∉ chars (run_container.container_name name image))
  ∧ ("/"%char ∉ chars (run_container.container_name name image)).
Proof.
  assert (∀ x : ascii, x ∈ chars "-" → x = "-"%char) as Hdash.
  { intros x [->|[]%elem_of_nil]%elem_of_cons. done. }
  unfold run_container.container_name.
  set (n := match name with
            | Some (String _ _ as given) => given
            | _ => images.name image
            end).
  split; intros Hin.
  - apply replace_char_chars in Hin as [[Hin _]|Hin%Hdash]; [|done].
    apply replace_char_chars in Hin as [[_ Hne]|Hin%Hdash]; done.
  - apply replace_char_chars in Hin as [[_ Hne]|Hin%Hdash]; done.
Qed.

(** ** The properties above on the archives and images of this file *)

Section ExtraWitnesses.
Import pathlib tarfile shrink_containers.

Lemma resolved_paths_absolute_witness : pybytes.startswith "/bin/sh" "/" = true.
Proof.
  apply (resolved_paths_absolute tmpdir elements host0 app_logs app_archive
           _ "/bin/sh" app_resolution).
  by_compute.
Defined.

Lemma closure_is_one_pass_witness :
  ∃ st,
    for_each (scan_entry tmpdir) app_archive
      (mkScan (seed_path_set app_logs) [] host0) = Ok st
    ∧ ∀ p, p ∈ list_to_set bootstrap
               ∪ ({["/usr/local/bin/app"; "/bin/sh"]} : gset string) ↔
           p ∈ path_set st
           ∨ ∃ q added, q ∈ path_set st
                        ∧ close_path tmpdir st ∅ q = Ok added ∧ p ∈ added.
Proof.
  apply (closure_is_one_pass tmpdir elements host0 app_logs app_archive).
  - done.
  - apply app_resolution.
Defined.

Lemma returned_with {A} (r : result A) (P : A → Prop) :
  match r with Ok a => P a | Raise _ => False end → ∃ a, r = Ok a ∧ P a.
Proof. destruct r as [a|e]; [by exists a|done]. Qed.

Lemma script_scan :
  ∃ st, for_each (scan_entry tmpdir) script_archive
          (mkScan (seed_path_set script_logs) [] host0) = Ok st
        ∧ ("usr/bin/run.sh", "/bin/sh") ∈ shebangs st
        ∧ bool_decide ("/bin/sh" ∈ path_set st) = true.
Proof.
  apply (returned_with _
           (λ st, ("usr/bin/run.sh", "/bin/sh") ∈ shebangs st
                  ∧ bool_decide ("/bin/sh" ∈ path_set st) = true)).
  vm_compute. split; [left|reflexivity].
Qed.

Lemma scanned_shebangs_declared_witness :
  ∃ m, m ∈ script_archive ∧ name (info m) = "usr/bin/run.sh"
       ∧ declares m "/bin/sh".
Proof.
  destruct script_scan as (st & Hscan & Hin & _).
  exact (scanned_shebangs_declared tmpdir host0 script_logs script_archive
           st _ _ Hscan Hin).
Defined.

Lemma scanned_paths_from_scripts_witness :
  ∃ st, "/bin/sh" ∈ seed_path_set script_logs
        ∨ ∃ m, m ∈ script_archive ∧ declares m "/bin/sh"
               ∧ entry_name (info m) ∈ path_set st.
Proof.
  destruct script_scan as (st & Hscan & _ & Hin%bool_decide_eq_true).
  exists st.
  exact (scanned_paths_from_scripts tmpdir host0 script_logs script_archive
           st _ Hscan Hin).
Defined.

Lemma app_shrunk :
  ∃ reduced, shrink_image tmpdir elements host0 app_logs app_archive = Ok reduced.
Proof. eexists. vm_compute. reflexivity. Qed.

Lemma shrink_image_keeps_seed_files_witness :
  ∃ reduced,
    shrink_image tmpdir elements host0 app_logs app_archive = Ok reduced
    ∧ reg_member "etc/passwd" "root:x:0:0::/:/bin/sh" ∈ reduced.
Proof.
  destruct app_shrunk as (reduced & Hshrunk). exists reduced.
  split; [done|].
  apply (shrink_image_keeps_seed_files tmpdir elements host0 app_logs
           app_archive reduced _ Hshrunk).
  - unfold app_archive. do 3 right. left.
  - reflexivity.
  - by_compute.
Defined.

Lemma write_reduced_monotone_witness :
  write_reduced {["/bin/sh"]} app_archive
    `sublist_of` write_reduced {["/bin/sh"; "/etc/motd"]} app_archive.
Proof.
  apply (write_reduced_monotone {["/bin/sh"]} {["/bin/sh"; "/etc/motd"]}).
  by_compute.
Defined.

Definition bare_shebang_archive : list member :=
  [dir_member "bin"; reg_member "bin/empty" ("#!" +:+ nl +:+ "echo")].

Lemma bare_shebang_raises_witness :
  ∃ e, resolve_path_set tmpdir elements host0 app_logs bare_shebang_archive
       = Raise e.
Proof.
  apply (bare_shebang_raises tmpdir elements host0 app_logs
           bare_shebang_archive
           (reg_member "bin/empty" ("#!" +:+ nl +:+ "echo"))).
  - unfold bare_shebang_archive. right. left.
  - reflexivity.
  - reflexivity.
  - reflexivity.
Defined.

(** A path whose name holds the byte 255, as a file named in Latin-1. *)
Definition latin1_path : string := "/srv/" +:+ String "255" "".

Lemma undecodable_log_record_raises_witness :
  ∃ e, resolve_path_set tmpdir elements host0 (latin1_path +:+ nul)
         app_archive = Raise e.
Proof.
  apply (undecodable_log_record_raises tmpdir elements host0
           (latin1_path +:+ nul) app_archive latin1_path).
  - done.
  - by_compute.
  - reflexivity.
  - reflexivity.
Defined.
Lemma undecodable_interpreter_raises_witness :
  ∃ e, resolve_path_set tmpdir elements host0 latin1_script_logs
         [dir_member "bin"; latin1_script] = Raise e.
Proof.
  apply (undecodable_interpreter_raises tmpdir elements host0
           latin1_script_logs [dir_member "bin"; latin1_script]
           latin1_script latin1_interpreter []).
  - right. left.
  - reflexivity.
  - by_compute.
  - reflexivity.
  - reflexivity.
  - reflexivity.
  - reflexivity.
Defined.

Lemma app_scan :
  ∃ st, for_each (scan_entry tmpdir) app_archive
          (mkScan (seed_path_set app_logs) [] host0) = Ok st
        ∧ bool_decide ("/usr/local/bin/app" ∈ path_set st) = true
        ∧ ospath.exists_ (tree st)
            (joinpath (symlink_tree tmpdir) (parse "usr/local/bin/app")) = true
        ∧ ospath.resolve (tree st)
            (joinpath (symlink_tree tmpdir) (parse "usr/local/bin/app"))
          = Ok (parse "/tmp/tmpshrink/symlinks/bin/sh").
Proof.
  apply (returned_with _
           (λ st, bool_decide ("/usr/local/bin/app" ∈ path_set st) = true
                  ∧ ospath.exists_ (tree st)
                      (joinpath (symlink_tree tmpdir)
                         (parse "usr/local/bin/app")) = true
                  ∧ ospath.resolve (tree st)
                      (joinpath (symlink_tree tmpdir)
                         (parse "usr/local/bin/app"))
                    = Ok (parse "/tmp/tmpshrink/symlinks/bin/sh"))).
  vm_compute. done.
Qed.

Lemma link_target_added_witness :
  "/bin/sh" ∈ list_to_set bootstrap
              ∪ ({["/usr/local/bin/app"; "/bin/sh"]} : gset string).
Proof.
  destruct app_scan as (st & Hscan & Hin%bool_decide_eq_true & Hex & Hres).
  apply (link_target_added tmpdir elements host0 app_logs app_archive st _
           "/usr/local/bin/app" "/usr/local/bin/app"
           (parse "usr/local/bin/app")
           (parse "/tmp/tmpshrink/symlinks/bin/sh") (parse "bin/sh")
           (λ _, reflexivity _) Hscan app_resolution Hin).
  - reflexivity.
  - reflexivity.
  - exact Hex.
  - exact Hres.
  - by_compute.
  - reflexivity.
Defined.
End ExtraWitnesses.

Section ExtraPipelineWitnesses.
Import images pipeline.

Lemma counting_analysis_sizes (w : nat) image w' old new :
  counting_analysis w image = (w', Ok (old, new)) → old ≠ 0%Z ∧ new ≠ 0%Z.
Proof. intros [= _ <- <-]. done. Qed.

Lemma counting_run :
  ∃ evs final,
    main nat counting_analysis 0%nat [finished_image; zero_size_image]
    = (evs, Ok final).
Proof. eexists _, _. reflexivity. Qed.

Lemma main_sets_only_sizes_witness :
  ∃ final,
    Forall2 (processed nat counting_analysis)
      [finished_image; zero_size_image] final.
Proof.
  destruct counting_run as (evs & final & Hrun). exists final.
  exact (main_sets_only_sizes nat counting_analysis 0%nat _ _ _ Hrun).
Defined.

Lemma main_rerun_skips_all_witness :
  ∃ final,
    main nat counting_analysis 7%nat final = (Skip <$> final, Ok final).
Proof.
  destruct counting_run as (evs & final & Hrun). exists final.
  exact (main_rerun_skips_all nat counting_analysis 0%nat 7%nat _ _ _
           counting_analysis_sizes Hrun).
Defined.

Lemma main_writes_whole_list_witness :
  name <$> [finished_image; set_sizes zero_size_image 20480 10240]
  = name <$> [finished_image; zero_size_image].
Proof.
  apply (main_writes_whole_list nat counting_analysis 0%nat).
  vm_compute. right. right. left.
Defined.

(** An analysis that fails. *)
Definition failing_analysis (w : nat) (image : Image) : nat * result (Z * Z) :=
  (w, Raise RuntimeError).

Lemma main_stops_at_failure_witness :
  main nat failing_analysis 0%nat
    ([finished_image] ++ zero_size_image :: [finished_image])
  = ((Skip <$> [finished_image]) ++ [Analyze zero_size_image],
     Raise RuntimeError).
Proof.
  apply (main_stops_at_failure nat failing_analysis 0%nat 0%nat
           [finished_image] [finished_image] zero_size_image RuntimeError).
  - by repeat constructor.
  - reflexivity.
  - reflexivity.
Defined.

Lemma export_after_main_witness :
  ∃ final old new,
    (name zero_size_image, old, new) ∈ images_io.export_rows final.
Proof.
  destruct counting_run as (evs & final & Hrun). exists final.
  assert (set_sizes zero_size_image 20480 10240 ∈ final) as Hin.
  { vm_compute in Hrun. injection Hrun as _ <-. right. left. }
  exact (export_after_main nat counting_analysis 0%nat _ _ _
           (set_sizes zero_size_image 20480 10240)
           counting_analysis_sizes Hrun Hin eq_refl).
Defined.

Lemma instrumented_image_one_sidecar_witness :
  envs (instrumented_image web_addresses
          (plain_image "web" ["DB_HOST=${db}"] [plain_image "db" [] []]))
  = (λ env, pybytes.replace env
              ("${" +:+ name (plain_image "db" [] []) +:+ "}")
              (web_addresses (plain_image "db" [] [])))
      <$> ["DB_HOST=${db}"].
Proof.
  apply (instrumented_image_one_sidecar web_addresses
           (plain_image "web" ["DB_HOST=${db}"] [plain_image "db" [] []])).
  reflexivity.
Defined.

Lemma write_read_images_witness :
  images_io.read_images
    (images_io.dump_load
       (images_io.write_images [web_image; app_with_sidecar; finished_image]))
  = Some (images_io.sort_by name
            (images_io.reread
               <$> [web_image; app_with_sidecar; finished_image])).
Proof.
  apply write_read_images.
  - by_compute.
  - repeat constructor.
Defined.

Lemma from_json_defaults_witness :
  from_json "alpine" (JDict [("comment", JStr "base image")])
  = Some {| name := "alpine"; repo_digest := None; test_ports := [];
            docker_commands := []; old_size := None; new_size := None;
            envs := []; mounts := []; skip := false; sidecars := [] |}.
Proof.
  apply from_json_defaults.
  intros k Hk [->|[]%elem_of_nil]%elem_of_cons. revert Hk. by_compute.
Defined.

(** A registry that answers every pull with a digest made from the name. *)
Definition pull_by_name (w : nat) (n : string) : nat * result string :=
  (S w, Ok (n +:+ "@sha256:feed")).

Definition unpinned_image : Image :=
  {| name := "redis"; repo_digest := None; test_ports := [];
     docker_commands := []; old_size := None; new_size := None; envs := [];
     mounts := []; skip := false; sidecars := [] |}.

Lemma pin_run :
  ∃ evs final,
    images_io.main nat pull_by_name 0%nat
      [finished_image; unpinned_image]
    = (evs, Ok final).
Proof. eexists _, _. reflexivity. Qed.

Lemma pin_main_sets_missing_digests_witness :
  ∃ final,
    Forall2 (pinned nat pull_by_name)
      [finished_image; unpinned_image]
      final.
Proof.
  destruct pin_run as (evs & final & Hrun). exists final.
  exact (pin_main_sets_missing_digests nat pull_by_name 0%nat _ _ _ Hrun).
Defined.

Lemma pin_main_pulls_unpinned_witness :
  ∃ img,
    img ∈ [finished_image; unpinned_image]
    ∧ name img = "redis" ∧ images_io.has_digest img = false.
Proof.
  apply (pin_main_pulls_unpinned nat pull_by_name 0%nat).
  vm_compute. left.
Defined.
End ExtraPipelineWitnesses.
